(** * schemagen: a shallow embedding of the JSON-Schema driven data generator

    This development models the Go package [schemagen] (file [schema.go]):
    the [Schema] tree, the validator [ValidateWithDetails]/[Validate], and the
    generator [generateWithContext] with its helpers ([generateByType],
    [generateString], [generateNumber], [generateObject], [generateArray],
    [handleOneOf], [handleAnyOf], [handleAllOf], [randomString]).

    Modelling choices.
    - JSON numbers ([float64] in Go) are rationals [Q]; [int] lengths are [Z].
    - The [*rand.Rand] source and the [gofakeit.Faker] are external libraries:
      they are deterministic functions of the seed they were built from and of
      the number of draws already made.  The generator state records that seed
      and a draw counter for each of them.
    - [range] over a Go map visits the entries in an order chosen by the Go
      runtime, independently of any seed.  The model takes that order from a
      [Runtime] record: the k-th map range executed by a run reorders the
      entries with [map_order k].
    - Fields typed [interface{}] ([Items], [AdditionalProperties]) are sum
      types; a JSON object there is re-marshalled and parsed by [ParseSchema],
      whose outcome is an [option Schema] ([None]: the parse failed).
    - A Go run-time panic (index out of range, [make] with a negative length)
      is the result [Panic]. *)

From Stdlib Require Import List ZArith QArith Qround String Ascii Bool.
From Stdlib Require Import Permutation Lia Lqa.
Import ListNotations.

#[local] Set Warnings "-register-all".

Open Scope Z_scope.

(** ** Values produced by the generator (the [interface{}] results) *)

Inductive Value : Type :=
| VNull
| VBool (b : bool)
| VInt (z : Z)
| VNum (q : Q)
| VStr (s : string)
| VArr (l : list Value)
| VObj (m : list (string * Value)).

(** [result[key] = value] on a Go [map[string]interface{}]: overwrite the key
    if present, add it otherwise. *)
Fixpoint map_insert {A} (k : string) (v : A) (m : list (string * A))
  : list (string * A) :=
  match m with
  | [] => [(k, v)]
  | (k', v') :: r =>
      if String.eqb k k' then (k, v) :: r else (k', v') :: map_insert k v r
  end.

Fixpoint map_lookup {A} (k : string) (m : list (string * A)) : option A :=
  match m with
  | [] => None
  | (k', v) :: r => if String.eqb k k' then Some v else map_lookup k r
  end.

(** ** The schema model *)

Record StringOrArray : Type := {
  Single : string;
  Multiple : list string;
  IsArray : bool
}.

Definition GetTypes (s : StringOrArray) : list string :=
  if negb (IsArray s) then
    (if String.eqb (Single s) "" then [] else [Single s])
  else Multiple s.

Definition IsEmpty (s : StringOrArray) : bool :=
  if IsArray s then Nat.eqb (List.length (Multiple s)) 0
  else String.eqb (Single s) "".

(** [Items interface{}]: absent, a JSON object (re-parsed as a schema), a
    JSON array (each element re-parsed as a schema), anything else. *)
Inductive ItemsField (S : Type) : Type :=
| INone
| IMap (p : option S)
| IList (l : list (option S))
| IOther.
Arguments INone {S}. Arguments IMap {S} p.
Arguments IList {S} l. Arguments IOther {S}.

(** [AdditionalProperties interface{}]: absent, a boolean, a JSON object
    (re-parsed as a schema), anything else. *)
Inductive APField (S : Type) : Type :=
| APNone
| APBool (b : bool)
| APMap (p : option S)
| APOther.
Arguments APNone {S}. Arguments APBool {S} b.
Arguments APMap {S} p. Arguments APOther {S}.

(** The [Schema] struct.  The three [map[string]*Schema] fields hold
    pointers, which are nil ([None]) for an entry written [null]; [OneOf],
    [AnyOf] and [AllOf] are [[]Schema] slices of values, where a [null]
    element decodes to the zero [Schema{}], so they hold no nil.  The [*int]
    fields hold Go [int] values, in [[-2^63, 2^63)]; the [*float64] fields
    hold the exact value of the decoded [float64]. *)
Inductive Schema : Type := mkSchema {
  Type_ : StringOrArray;
  Title : string;
  Enum : list Value;
  Const : option Value;               (* [nil] interface: [None] *)
  MinLength : option Z;
  MaxLength : option Z;
  Pattern : string;
  Format : string;
  Minimum : option Q;
  Maximum : option Q;
  ExclusiveMinimum : option Q;
  ExclusiveMaximum : option Q;
  MultipleOf : option Q;
  Properties : option (list (string * option Schema));  (* [*Schema]: nil is [None] *)
  Required : list string;
  AdditionalProperties : APField Schema;
  Items : ItemsField Schema;
  MinItems : option Z;
  MaxItems : option Z;
  OneOf : list Schema;
  AnyOf : list Schema;
  AllOf : list Schema;
  Ref : string;
  Definitions : option (list (string * option Schema));
  Defs : option (list (string * option Schema))
}.

(** The zero value [Schema{}]. *)
Definition emptySchema : Schema := {|
  Type_ := {| Single := ""; Multiple := []; IsArray := false |};
  Title := ""; Enum := []; Const := None;
  MinLength := None; MaxLength := None; Pattern := ""; Format := "";
  Minimum := None; Maximum := None; ExclusiveMinimum := None;
  ExclusiveMaximum := None; MultipleOf := None;
  Properties := None; Required := []; AdditionalProperties := APNone;
  Items := INone; MinItems := None; MaxItems := None;
  OneOf := []; AnyOf := []; AllOf := [];
  Ref := ""; Definitions := None; Defs := None |}.

(** [modifiedSchema := *schema; modifiedSchema.Type = t]: a struct copy with
    the [Type] field overwritten. *)
Definition with_type (s : Schema) (t : StringOrArray) : Schema := {|
  Type_ := t;
  Title := Title s; Enum := Enum s; Const := Const s;
  MinLength := MinLength s; MaxLength := MaxLength s;
  Pattern := Pattern s; Format := Format s;
  Minimum := Minimum s; Maximum := Maximum s;
  ExclusiveMinimum := ExclusiveMinimum s;
  ExclusiveMaximum := ExclusiveMaximum s; MultipleOf := MultipleOf s;
  Properties := Properties s; Required := Required s;
  AdditionalProperties := AdditionalProperties s;
  Items := Items s; MinItems := MinItems s; MaxItems := MaxItems s;
  OneOf := OneOf s; AnyOf := AnyOf s; AllOf := AllOf s;
  Ref := Ref s; Definitions := Definitions s; Defs := Defs s |}.


(** ** Struct literals

    Setters writing one field of a [Schema] value, used to write the schemas
    of the examples as Go struct literals. *)

Definition set_Enum (v : list Value) (s : Schema) : Schema := {|
  Type_ := Type_ s; Title := Title s; Enum := v; Const := Const s;
  MinLength := MinLength s; MaxLength := MaxLength s; Pattern := Pattern s;
  Format := Format s; Minimum := Minimum s; Maximum := Maximum s;
  ExclusiveMinimum := ExclusiveMinimum s;
  ExclusiveMaximum := ExclusiveMaximum s; MultipleOf := MultipleOf s;
  Properties := Properties s; Required := Required s;
  AdditionalProperties := AdditionalProperties s; Items := Items s;
  MinItems := MinItems s; MaxItems := MaxItems s; OneOf := OneOf s;
  AnyOf := AnyOf s; AllOf := AllOf s; Ref := Ref s;
  Definitions := Definitions s; Defs := Defs s |}.

Definition set_Const (v : option Value) (s : Schema) : Schema := {|
  Type_ := Type_ s; Title := Title s; Enum := Enum s; Const := v;
  MinLength := MinLength s; MaxLength := MaxLength s; Pattern := Pattern s;
  Format := Format s; Minimum := Minimum s; Maximum := Maximum s;
  ExclusiveMinimum := ExclusiveMinimum s;
  ExclusiveMaximum := ExclusiveMaximum s; MultipleOf := MultipleOf s;
  Properties := Properties s; Required := Required s;
  AdditionalProperties := AdditionalProperties s; Items := Items s;
  MinItems := MinItems s; MaxItems := MaxItems s; OneOf := OneOf s;
  AnyOf := AnyOf s; AllOf := AllOf s; Ref := Ref s;
  Definitions := Definitions s; Defs := Defs s |}.

Definition set_MinLength (v : option Z) (s : Schema) : Schema := {|
  Type_ := Type_ s; Title := Title s; Enum := Enum s; Const := Const s;
  MinLength := v; MaxLength := MaxLength s; Pattern := Pattern s;
  Format := Format s; Minimum := Minimum s; Maximum := Maximum s;
  ExclusiveMinimum := ExclusiveMinimum s;
  ExclusiveMaximum := ExclusiveMaximum s; MultipleOf := MultipleOf s;
  Properties := Properties s; Required := Required s;
  AdditionalProperties := AdditionalProperties s; Items := Items s;
  MinItems := MinItems s; MaxItems := MaxItems s; OneOf := OneOf s;
  AnyOf := AnyOf s; AllOf := AllOf s; Ref := Ref s;
  Definitions := Definitions s; Defs := Defs s |}.

Definition set_MaxLength (v : option Z) (s : Schema) : Schema := {|
  Type_ := Type_ s; Title := Title s; Enum := Enum s; Const := Const s;
  MinLength := MinLength s; MaxLength := v; Pattern := Pattern s;
  Format := Format s; Minimum := Minimum s; Maximum := Maximum s;
  ExclusiveMinimum := ExclusiveMinimum s;
  ExclusiveMaximum := ExclusiveMaximum s; MultipleOf := MultipleOf s;
  Properties := Properties s; Required := Required s;
  AdditionalProperties := AdditionalProperties s; Items := Items s;
  MinItems := MinItems s; MaxItems := MaxItems s; OneOf := OneOf s;
  AnyOf := AnyOf s; AllOf := AllOf s; Ref := Ref s;
  Definitions := Definitions s; Defs := Defs s |}.

Definition set_Pattern (v : string) (s : Schema) : Schema := {|
  Type_ := Type_ s; Title := Title s; Enum := Enum s; Const := Const s;
  MinLength := MinLength s; MaxLength := MaxLength s; Pattern := v;
  Format := Format s; Minimum := Minimum s; Maximum := Maximum s;
  ExclusiveMinimum := ExclusiveMinimum s;
  ExclusiveMaximum := ExclusiveMaximum s; MultipleOf := MultipleOf s;
  Properties := Properties s; Required := Required s;
  AdditionalProperties := AdditionalProperties s; Items := Items s;
  MinItems := MinItems s; MaxItems := MaxItems s; OneOf := OneOf s;
  AnyOf := AnyOf s; AllOf := AllOf s; Ref := Ref s;
  Definitions := Definitions s; Defs := Defs s |}.

Definition set_Format (v : string) (s : Schema) : Schema := {|
  Type_ := Type_ s; Title := Title s; Enum := Enum s; Const := Const s;
  MinLength := MinLength s; MaxLength := MaxLength s; Pattern := Pattern s;
  Format := v; Minimum := Minimum s; Maximum := Maximum s;
  ExclusiveMinimum := ExclusiveMinimum s;
  ExclusiveMaximum := ExclusiveMaximum s; MultipleOf := MultipleOf s;
  Properties := Properties s; Required := Required s;
  AdditionalProperties := AdditionalProperties s; Items := Items s;
  MinItems := MinItems s; MaxItems := MaxItems s; OneOf := OneOf s;
  AnyOf := AnyOf s; AllOf := AllOf s; Ref := Ref s;
  Definitions := Definitions s; Defs := Defs s |}.

Definition set_Minimum (v : option Q) (s : Schema) : Schema := {|
  Type_ := Type_ s; Title := Title s; Enum := Enum s; Const := Const s;
  MinLength := MinLength s; MaxLength := MaxLength s; Pattern := Pattern s;
  Format := Format s; Minimum := v; Maximum := Maximum s;
  ExclusiveMinimum := ExclusiveMinimum s;
  ExclusiveMaximum := ExclusiveMaximum s; MultipleOf := MultipleOf s;
  Properties := Properties s; Required := Required s;
  AdditionalProperties := AdditionalProperties s; Items := Items s;
  MinItems := MinItems s; MaxItems := MaxItems s; OneOf := OneOf s;
  AnyOf := AnyOf s; AllOf := AllOf s; Ref := Ref s;
  Definitions := Definitions s; Defs := Defs s |}.

Definition set_Maximum (v : option Q) (s : Schema) : Schema := {|
  Type_ := Type_ s; Title := Title s; Enum := Enum s; Const := Const s;
  MinLength := MinLength s; MaxLength := MaxLength s; Pattern := Pattern s;
  Format := Format s; Minimum := Minimum s; Maximum := v;
  ExclusiveMinimum := ExclusiveMinimum s;
  ExclusiveMaximum := ExclusiveMaximum s; MultipleOf := MultipleOf s;
  Properties := Properties s; Required := Required s;
  AdditionalProperties := AdditionalProperties s; Items := Items s;
  MinItems := MinItems s; MaxItems := MaxItems s; OneOf := OneOf s;
  AnyOf := AnyOf s; AllOf := AllOf s; Ref := Ref s;
  Definitions := Definitions s; Defs := Defs s |}.

Definition set_ExclusiveMinimum (v : option Q) (s : Schema) : Schema := {|
  Type_ := Type_ s; Title := Title s; Enum := Enum s; Const := Const s;
  MinLength := MinLength s; MaxLength := MaxLength s; Pattern := Pattern s;
  Format := Format s; Minimum := Minimum s; Maximum := Maximum s;
  ExclusiveMinimum := v; ExclusiveMaximum := ExclusiveMaximum s;
  MultipleOf := MultipleOf s; Properties := Properties s;
  Required := Required s; AdditionalProperties := AdditionalProperties s;
  Items := Items s; MinItems := MinItems s; MaxItems := MaxItems s;
  OneOf := OneOf s; AnyOf := AnyOf s; AllOf := AllOf s; Ref := Ref s;
  Definitions := Definitions s; Defs := Defs s |}.

Definition set_ExclusiveMaximum (v : option Q) (s : Schema) : Schema := {|
  Type_ := Type_ s; Title := Title s; Enum := Enum s; Const := Const s;
  MinLength := MinLength s; MaxLength := MaxLength s; Pattern := Pattern s;
  Format := Format s; Minimum := Minimum s; Maximum := Maximum s;
  ExclusiveMinimum := ExclusiveMinimum s; ExclusiveMaximum := v;
  MultipleOf := MultipleOf s; Properties := Properties s;
  Required := Required s; AdditionalProperties := AdditionalProperties s;
  Items := Items s; MinItems := MinItems s; MaxItems := MaxItems s;
  OneOf := OneOf s; AnyOf := AnyOf s; AllOf := AllOf s; Ref := Ref s;
  Definitions := Definitions s; Defs := Defs s |}.

Definition set_MultipleOf (v : option Q) (s : Schema) : Schema := {|
  Type_ := Type_ s; Title := Title s; Enum := Enum s; Const := Const s;
  MinLength := MinLength s; MaxLength := MaxLength s; Pattern := Pattern s;
  Format := Format s; Minimum := Minimum s; Maximum := Maximum s;
  ExclusiveMinimum := ExclusiveMinimum s;
  ExclusiveMaximum := ExclusiveMaximum s; MultipleOf := v;
  Properties := Properties s; Required := Required s;
  AdditionalProperties := AdditionalProperties s; Items := Items s;
  MinItems := MinItems s; MaxItems := MaxItems s; OneOf := OneOf s;
  AnyOf := AnyOf s; AllOf := AllOf s; Ref := Ref s;
  Definitions := Definitions s; Defs := Defs s |}.

Definition set_Properties (v : option (list (string * option Schema))) (s : Schema) : Schema := {|
  Type_ := Type_ s; Title := Title s; Enum := Enum s; Const := Const s;
  MinLength := MinLength s; MaxLength := MaxLength s; Pattern := Pattern s;
  Format := Format s; Minimum := Minimum s; Maximum := Maximum s;
  ExclusiveMinimum := ExclusiveMinimum s;
  ExclusiveMaximum := ExclusiveMaximum s; MultipleOf := MultipleOf s;
  Properties := v; Required := Required s;
  AdditionalProperties := AdditionalProperties s; Items := Items s;
  MinItems := MinItems s; MaxItems := MaxItems s; OneOf := OneOf s;
  AnyOf := AnyOf s; AllOf := AllOf s; Ref := Ref s;
  Definitions := Definitions s; Defs := Defs s |}.

Definition set_Required (v : list string) (s : Schema) : Schema := {|
  Type_ := Type_ s; Title := Title s; Enum := Enum s; Const := Const s;
  MinLength := MinLength s; MaxLength := MaxLength s; Pattern := Pattern s;
  Format := Format s; Minimum := Minimum s; Maximum := Maximum s;
  ExclusiveMinimum := ExclusiveMinimum s;
  ExclusiveMaximum := ExclusiveMaximum s; MultipleOf := MultipleOf s;
  Properties := Properties s; Required := v;
  AdditionalProperties := AdditionalProperties s; Items := Items s;
  MinItems := MinItems s; MaxItems := MaxItems s; OneOf := OneOf s;
  AnyOf := AnyOf s; AllOf := AllOf s; Ref := Ref s;
  Definitions := Definitions s; Defs := Defs s |}.

Definition set_AdditionalProperties (v : APField Schema) (s : Schema) : Schema := {|
  Type_ := Type_ s; Title := Title s; Enum := Enum s; Const := Const s;
  MinLength := MinLength s; MaxLength := MaxLength s; Pattern := Pattern s;
  Format := Format s; Minimum := Minimum s; Maximum := Maximum s;
  ExclusiveMinimum := ExclusiveMinimum s;
  ExclusiveMaximum := ExclusiveMaximum s; MultipleOf := MultipleOf s;
  Properties := Properties s; Required := Required s;
  AdditionalProperties := v; Items := Items s; MinItems := MinItems s;
  MaxItems := MaxItems s; OneOf := OneOf s; AnyOf := AnyOf s;
  AllOf := AllOf s; Ref := Ref s; Definitions := Definitions s;
  Defs := Defs s |}.

Definition set_Items (v : ItemsField Schema) (s : Schema) : Schema := {|
  Type_ := Type_ s; Title := Title s; Enum := Enum s; Const := Const s;
  MinLength := MinLength s; MaxLength := MaxLength s; Pattern := Pattern s;
  Format := Format s; Minimum := Minimum s; Maximum := Maximum s;
  ExclusiveMinimum := ExclusiveMinimum s;
  ExclusiveMaximum := ExclusiveMaximum s; MultipleOf := MultipleOf s;
  Properties := Properties s; Required := Required s;
  AdditionalProperties := AdditionalProperties s; Items := v;
  MinItems := MinItems s; MaxItems := MaxItems s; OneOf := OneOf s;
  AnyOf := AnyOf s; AllOf := AllOf s; Ref := Ref s;
  Definitions := Definitions s; Defs := Defs s |}.

Definition set_MinItems (v : option Z) (s : Schema) : Schema := {|
  Type_ := Type_ s; Title := Title s; Enum := Enum s; Const := Const s;
  MinLength := MinLength s; MaxLength := MaxLength s; Pattern := Pattern s;
  Format := Format s; Minimum := Minimum s; Maximum := Maximum s;
  ExclusiveMinimum := ExclusiveMinimum s;
  ExclusiveMaximum := ExclusiveMaximum s; MultipleOf := MultipleOf s;
  Properties := Properties s; Required := Required s;
  AdditionalProperties := AdditionalProperties s; Items := Items s;
  MinItems := v; MaxItems := MaxItems s; OneOf := OneOf s;
  AnyOf := AnyOf s; AllOf := AllOf s; Ref := Ref s;
  Definitions := Definitions s; Defs := Defs s |}.

Definition set_MaxItems (v : option Z) (s : Schema) : Schema := {|
  Type_ := Type_ s; Title := Title s; Enum := Enum s; Const := Const s;
  MinLength := MinLength s; MaxLength := MaxLength s; Pattern := Pattern s;
  Format := Format s; Minimum := Minimum s; Maximum := Maximum s;
  ExclusiveMinimum := ExclusiveMinimum s;
  ExclusiveMaximum := ExclusiveMaximum s; MultipleOf := MultipleOf s;
  Properties := Properties s; Required := Required s;
  AdditionalProperties := AdditionalProperties s; Items := Items s;
  MinItems := MinItems s; MaxItems := v; OneOf := OneOf s;
  AnyOf := AnyOf s; AllOf := AllOf s; Ref := Ref s;
  Definitions := Definitions s; Defs := Defs s |}.

Definition set_OneOf (v : list Schema) (s : Schema) : Schema := {|
  Type_ := Type_ s; Title := Title s; Enum := Enum s; Const := Const s;
  MinLength := MinLength s; MaxLength := MaxLength s; Pattern := Pattern s;
  Format := Format s; Minimum := Minimum s; Maximum := Maximum s;
  ExclusiveMinimum := ExclusiveMinimum s;
  ExclusiveMaximum := ExclusiveMaximum s; MultipleOf := MultipleOf s;
  Properties := Properties s; Required := Required s;
  AdditionalProperties := AdditionalProperties s; Items := Items s;
  MinItems := MinItems s; MaxItems := MaxItems s; OneOf := v;
  AnyOf := AnyOf s; AllOf := AllOf s; Ref := Ref s;
  Definitions := Definitions s; Defs := Defs s |}.

Definition set_AnyOf (v : list Schema) (s : Schema) : Schema := {|
  Type_ := Type_ s; Title := Title s; Enum := Enum s; Const := Const s;
  MinLength := MinLength s; MaxLength := MaxLength s; Pattern := Pattern s;
  Format := Format s; Minimum := Minimum s; Maximum := Maximum s;
  ExclusiveMinimum := ExclusiveMinimum s;
  ExclusiveMaximum := ExclusiveMaximum s; MultipleOf := MultipleOf s;
  Properties := Properties s; Required := Required s;
  AdditionalProperties := AdditionalProperties s; Items := Items s;
  MinItems := MinItems s; MaxItems := MaxItems s; OneOf := OneOf s;
  AnyOf := v; AllOf := AllOf s; Ref := Ref s; Definitions := Definitions s;
  Defs := Defs s |}.

Definition set_AllOf (v : list Schema) (s : Schema) : Schema := {|
  Type_ := Type_ s; Title := Title s; Enum := Enum s; Const := Const s;
  MinLength := MinLength s; MaxLength := MaxLength s; Pattern := Pattern s;
  Format := Format s; Minimum := Minimum s; Maximum := Maximum s;
  ExclusiveMinimum := ExclusiveMinimum s;
  ExclusiveMaximum := ExclusiveMaximum s; MultipleOf := MultipleOf s;
  Properties := Properties s; Required := Required s;
  AdditionalProperties := AdditionalProperties s; Items := Items s;
  MinItems := MinItems s; MaxItems := MaxItems s; OneOf := OneOf s;
  AnyOf := AnyOf s; AllOf := v; Ref := Ref s; Definitions := Definitions s;
  Defs := Defs s |}.

(** ** Decimal rendering of an index, for [fmt.Sprintf("%d", i)] *)

Definition digit (n : nat) : string :=
  String (ascii_of_nat (48 + n)) EmptyString.

Fixpoint itoa_aux (fuel n : nat) (acc : string) : string :=
  match fuel with
  | O => acc
  | S f =>
      let acc' := (digit (Nat.modulo n 10) ++ acc)%string in
      if Nat.ltb n 10 then acc' else itoa_aux f (Nat.div n 10) acc'
  end.

Definition itoa (n : nat) : string := itoa_aux (S n) n "".


(** ** The validator *)

(** [x < y] on [float64]. *)
Definition Qltb (x y : Q) : bool := negb (Qle_bool y x).


(** The four messages of [ValidateWithDetails] (the [%f]/[%d] operands are
    kept as values). *)
Inductive VMsg : Type :=
| MsgMinMax (min max : Q)
| MsgExclusive (emin emax : Q)
| MsgLength (minLen maxLen : Z)
| MsgItems (minItems maxItems : Z).

Record ValidationError : Type := {
  Path : string;
  Message : VMsg
}.

Definition verr (path : string) (m : VMsg) : ValidationError :=
  {| Path := path; Message := m |}.

(** The checks of [ValidateWithDetails] at the node itself, in source order. *)
Definition nodeErrors (s : Schema) (basePath : string) : list ValidationError :=
  (match Minimum s, Maximum s with
   | Some mn, Some mx =>
       if Qltb mx mn then [verr basePath (MsgMinMax mn mx)] else []
   | _, _ => []
   end) ++
  (match ExclusiveMinimum s, ExclusiveMaximum s with
   | Some emn, Some emx =>
       if Qle_bool emx emn then [verr basePath (MsgExclusive emn emx)] else []
   | _, _ => []
   end) ++
  (match MinLength s, MaxLength s with
   | Some mn, Some mx =>
       if mn >? mx then [verr basePath (MsgLength mn mx)] else []
   | _, _ => []
   end) ++
  (match MinItems s, MaxItems s with
   | Some mn, Some mx =>
       if mn >? mx then [verr basePath (MsgItems mn mx)] else []
   | _, _ => []
   end).

(** [propPath] of the properties loop. *)
Definition propPath (basePath propName : string) : string :=
  if String.eqb basePath "" then propName
  else (basePath ++ "." ++ propName)%string.

(** [fmt.Sprintf("%s.<kw>[%d]", basePath, i)]. *)
Definition compPath (basePath kw : string) (i : nat) : string :=
  (basePath ++ "." ++ kw ++ "[" ++ itoa i ++ "]")%string.

(** The order in which the Go runtime ranges over the [Properties] map of the
    node at a given path during validation. *)
Definition MapOrder : Type :=
  string -> forall A : Type, list (string * A) -> list (string * A).

(** How a call of the validator ends: it returns a value, or it panics (a
    nil [*Schema] receiver is dereferenced). *)
Inductive Outcome (A : Type) : Type :=
| Returns (a : A)
| Panics.
Arguments Returns {A} a. Arguments Panics {A}.

(** [errors = append(errors, x...)] where [x] is the result of a call: a
    panic of the call ends the whole validation. *)
Definition oapp (o1 o2 : Outcome (list ValidationError)) : Outcome (list ValidationError) :=
  match o1 with
  | Panics => Panics
  | Returns l1 => match o2 with Panics => Panics | Returns l2 => Returns (l1 ++ l2) end
  end.

Definition oconcat (l : list (Outcome (list ValidationError))) : Outcome (list ValidationError) :=
  fold_right oapp (Returns []) l.

(** [for i, schema := range list { errors = append(errors, ...) }] *)
Fixpoint compErrors (f : Schema -> string -> Outcome (list ValidationError))
  (basePath kw : string) (i : nat) (l : list Schema) : Outcome (list ValidationError) :=
  match l with
  | [] => Returns []
  | c :: r => oapp (f c (compPath basePath kw i)) (compErrors f basePath kw (S i) r)
  end.

(** [ValidateWithDetails].  On a nil [propSchema] the call
    [propSchema.ValidateWithDetails(propPath)] enters the method, whose first
    statement reads [s.Minimum]: a nil dereference. *)
Fixpoint ValidateWithDetails (ord : MapOrder) (s : Schema) (basePath : string)
  {struct s} : Outcome (list ValidationError) :=
  oapp (Returns (nodeErrors s basePath))
  (oapp
    (match Properties s with
     | Some ps =>
         oconcat (map snd (ord basePath _
           (map (fun p => (fst p,
                   match snd p with
                   | Some c => ValidateWithDetails ord c (propPath basePath (fst p))
                   | None => Panics
                   end))
                ps)))
     | None => Returns []
     end)
  (oapp (compErrors (ValidateWithDetails ord) basePath "oneOf" 0 (OneOf s))
  (oapp (compErrors (ValidateWithDetails ord) basePath "anyOf" 0 (AnyOf s))
        (compErrors (ValidateWithDetails ord) basePath "allOf" 0 (AllOf s))))).

(** [Validate]: the first error, if any. *)
Definition Validate (ord : MapOrder) (s : Schema) : Outcome (option ValidationError) :=
  match ValidateWithDetails ord s "" with
  | Panics => Panics
  | Returns [] => Returns None
  | Returns (e :: _) => Returns (Some e)
  end.

(** No nil [*Schema] is met by the validator: every [properties] entry of
    the node and of the nodes reached through [properties] and
    [oneOf]/[anyOf]/[allOf] is non-nil. *)
Fixpoint nil_free (s : Schema) : bool :=
  match Properties s with
  | Some ps =>
      forallb (fun p => match snd p with Some c => nil_free c | None => false end) ps
  | None => true
  end &&
  forallb nil_free (OneOf s) && forallb nil_free (AnyOf s) && forallb nil_free (AllOf s).

(** The errors of an outcome ([[]] for a panic), and whether it panics. *)
Definition outcome_errors (o : Outcome (list ValidationError)) : list ValidationError :=
  match o with Returns l => l | Panics => [] end.

Definition panics {A} (o : Outcome A) : bool :=
  match o with Returns _ => false | Panics => true end.

(** The outcomes of the calls in a composition loop, in loop order. *)
Fixpoint compOutcomes (f : Schema -> string -> Outcome (list ValidationError))
  (basePath kw : string) (i : nat) (l : list Schema) : list (Outcome (list ValidationError)) :=
  match l with
  | [] => []
  | c :: r => f c (compPath basePath kw i) :: compOutcomes f basePath kw (S i) r
  end.

(** The outcomes of the calls of the properties loop, in iteration order. *)
Definition propOutcomes (ord : MapOrder) (s : Schema) (basePath : string)
  : list (Outcome (list ValidationError)) :=
  match Properties s with
  | Some ps =>
      map snd (ord basePath _
        (map (fun p => (fst p,
                match snd p with
                | Some c => ValidateWithDetails ord c (propPath basePath (fst p))
                | None => Panics
                end))
             ps))
  | None => []
  end.

(** The outcomes of all the nested calls of [ValidateWithDetails], in
    call order. *)
Definition child_outcomes (ord : MapOrder) (s : Schema) (basePath : string)
  : list (Outcome (list ValidationError)) :=
  propOutcomes ord s basePath ++
  compOutcomes (ValidateWithDetails ord) basePath "oneOf" 0 (OneOf s) ++
  compOutcomes (ValidateWithDetails ord) basePath "anyOf" 0 (AnyOf s) ++
  compOutcomes (ValidateWithDetails ord) basePath "allOf" 0 (AllOf s).

(** ** Errors and the generator monad *)

(** The errors [generate] returns, one constructor per [fmt.Errorf] site;
    [EField] and [EItem] are the [%w] wrappers of [generateObject] and
    [generateArray]. *)
Inductive GenError : Type :=
| ECancelled
| EDepth (max : Z)
| ENoType
| EUnsupportedType (t : string)
| EPattern (p : string)
| EBounds (min max : Q)
| EField (name : string) (e : GenError)
| EItem (i : Z) (e : GenError)
| EItemsParse
| EItemsParseAt (i : Z)
| EItemsType
| EEmptyOneOf
| EEmptyAnyOf
| EEmptyAllOf
| EInvalidSchema (e : ValidationError).

(** [(value, error)] of a Go call; [Panic] is a run-time panic, which no
    [err != nil] test intercepts; [Diverge] marks the loop of [randomString]
    running past its bound (see [appendWords]). *)
Inductive Result (A : Type) : Type :=
| Ok (a : A)
| Err (e : GenError)
| Panic
| Diverge.
Arguments Ok {A} a. Arguments Err {A} e.
Arguments Panic {A}. Arguments Diverge {A}.

(** Faker calls made by [generateStringFromFormat] and [randomString]. *)
Inductive FakerCall : Type :=
| FUUID | FEmail | FDateRFC3339 | FDateYMD | FDateHMS
| FIPv4 | FIPv6 | FURL | FDomainName | FWord.

(** The external libraries, as functions of (seed, number of earlier draws):
    [math/rand] ([Intn], [Int63n], [Float64]), [gofakeit] (the calls above and
    [LetterN]) and [reggen] ([NewGenerator(p)] then [Generate(10)]; [None]
    when the pattern does not parse). *)
Record Lib : Type := {
  rand_intn : Z -> nat -> Z -> Z;
  rand_int63n : Z -> nat -> Z -> Z;
  rand_float64 : Z -> nat -> Q;
  faker_call : Z -> nat -> FakerCall -> string;
  faker_letterN : Z -> nat -> Z -> string;
  reggen_generate : string -> option string
}.

(** The Go runtime's choice of iteration order for the k-th [range] over a
    map in a generation run, and for the ranges of the validator. *)
Record Runtime : Type := {
  map_order : nat -> forall A : Type, list (string * A) -> list (string * A);
  validate_order : MapOrder
}.

(** [Generator] with its two random sources: [rsrc]/[rpos] is the seed of
    [g.rand] and the number of draws made on it, [fsrc]/[fpos] the same for
    [g.faker]; [ranges] counts the map ranges executed so far. *)
Record Generator : Type := {
  MaxDepth : Z;
  Seed : Z;
  rsrc : Z;
  rpos : nat;
  fsrc : Z;
  fpos : nat;
  GenerateAllFields : bool;
  ranges : nat
}.

Definition set_rpos (g : Generator) (n : nat) : Generator :=
  {| MaxDepth := MaxDepth g; Seed := Seed g; rsrc := rsrc g; rpos := n;
     fsrc := fsrc g; fpos := fpos g;
     GenerateAllFields := GenerateAllFields g; ranges := ranges g |}.

Definition set_fpos (g : Generator) (n : nat) : Generator :=
  {| MaxDepth := MaxDepth g; Seed := Seed g; rsrc := rsrc g; rpos := rpos g;
     fsrc := fsrc g; fpos := n;
     GenerateAllFields := GenerateAllFields g; ranges := ranges g |}.

Definition set_ranges (g : Generator) (n : nat) : Generator :=
  {| MaxDepth := MaxDepth g; Seed := Seed g; rsrc := rsrc g; rpos := rpos g;
     fsrc := fsrc g; fpos := fpos g;
     GenerateAllFields := GenerateAllFields g; ranges := n |}.

(** [NewGenerator()], seeded from the clock value [now]. *)
Definition NewGenerator (now : Z) : Generator :=
  {| MaxDepth := 10; Seed := now; rsrc := now; rpos := 0;
     fsrc := now; fpos := 0; GenerateAllFields := false; ranges := 0 |}.

(** [SetSeed]: fresh [rand] and [faker] built from [seed]. *)
Definition SetSeed (seed : Z) (g : Generator) : Generator :=
  {| MaxDepth := MaxDepth g; Seed := seed; rsrc := seed; rpos := 0;
     fsrc := seed; fpos := 0;
     GenerateAllFields := GenerateAllFields g; ranges := ranges g |}.

Definition SetMaxDepth (d : Z) (g : Generator) : Generator :=
  {| MaxDepth := d; Seed := Seed g; rsrc := rsrc g; rpos := rpos g;
     fsrc := fsrc g; fpos := fpos g;
     GenerateAllFields := GenerateAllFields g; ranges := ranges g |}.

Definition SetGenerateAllFields (b : bool) (g : Generator) : Generator :=
  {| MaxDepth := MaxDepth g; Seed := Seed g; rsrc := rsrc g; rpos := rpos g;
     fsrc := fsrc g; fpos := fpos g; GenerateAllFields := b;
     ranges := ranges g |}.

(** A state and error monad: the generator is mutated in place, so the state
    is returned whatever the outcome. *)
Definition M (A : Type) : Type := Generator -> Result A * Generator.

Definition ret {A} (a : A) : M A := fun g => (Ok a, g).
Definition fail {A} (e : GenError) : M A := fun g => (Err e, g).
Definition panic {A} : M A := fun g => (Panic, g).

Definition bind {A B} (m : M A) (f : A -> M B) : M B :=
  fun g =>
    match m g with
    | (Ok a, g') => f a g'
    | (Err e, g') => (Err e, g')
    | (Panic, g') => (Panic, g')
    | (Diverge, g') => (Diverge, g')
    end.

Notation "x <- m ;; k" := (bind m (fun x => k))
  (at level 61, m at next level, right associativity).

(** [if err != nil { return nil, wrap(err) }] *)
Definition wrap_err {A} (w : GenError -> GenError) (m : M A) : M A :=
  fun g =>
    match m g with
    | (Err e, g') => (Err (w e), g')
    | r => r
    end.

Definition get_gen : M Generator := fun g => (Ok g, g).

(** Go [int] and [int64] arithmetic (64 bits, two's complement): the result
    of [+] and [-] wraps around. *)
Definition wrap64 (z : Z) : Z := (z + 2 ^ 63) mod 2 ^ 64 - 2 ^ 63.

(** Slice indexing [l[i]]: out of range panics. *)
Definition index {A} (l : list A) (i : Z) : M A :=
  if i <? 0 then panic
  else match nth_error l (Z.to_nat i) with
       | Some a => ret a
       | None => panic
       end.

Section Engine.

Variable lib : Lib.
Variable rt : Runtime.

(** One draw on [g.rand]; [Intn] and [Int63n] panic on an argument [n <= 0]
    ("invalid argument to Intn"). *)
Definition Intn (n : Z) : M Z :=
  if n <=? 0 then panic
  else fun g => (Ok (rand_intn lib (rsrc g) (rpos g) n), set_rpos g (S (rpos g))).

Definition Int63n (n : Z) : M Z :=
  if n <=? 0 then panic
  else fun g => (Ok (rand_int63n lib (rsrc g) (rpos g) n), set_rpos g (S (rpos g))).

Definition Float64 : M Q :=
  fun g => (Ok (rand_float64 lib (rsrc g) (rpos g)), set_rpos g (S (rpos g))).

(** One call on [g.faker]. *)
Definition faker (c : FakerCall) : M string :=
  fun g => (Ok (faker_call lib (fsrc g) (fpos g) c), set_fpos g (S (fpos g))).

Definition LetterN (n : Z) : M string :=
  fun g => (Ok (faker_letterN lib (fsrc g) (fpos g) n), set_fpos g (S (fpos g))).

(** [for k, v := range m]: the entries in the runtime's order. *)
Definition range_map {A} (m : list (string * A)) : M (list (string * A)) :=
  fun g => (Ok (map_order rt (ranges g) A m), set_ranges g (S (ranges g))).

(** ** String generation *)

(** [generateStringFromPattern] *)
Definition generateStringFromPattern (pattern : string) : M string :=
  match reggen_generate lib pattern with
  | None => fail (EPattern pattern)
  | Some s => ret s
  end.

(** The [switch format] of [generateStringFromFormat]. *)
Definition format_call (format : string) : FakerCall :=
  if String.eqb format "uuid" then FUUID
  else if String.eqb format "email" then FEmail
  else if String.eqb format "date-time" then FDateRFC3339
  else if String.eqb format "date" then FDateYMD
  else if String.eqb format "time" then FDateHMS
  else if String.eqb format "ipv4" then FIPv4
  else if String.eqb format "ipv6" then FIPv6
  else if String.eqb format "uri" then FURL
  else if String.eqb format "url" then FURL
  else if String.eqb format "hostname" then FDomainName
  else FWord.

Definition generateStringFromFormat (format : string) : M string :=
  faker (format_call format).

Definition slen (s : string) : Z := Z.of_nat (String.length s).

(** [for len(result) < length { result += g.faker.Word() }].  The loop is
    run for at most [fuel] iterations; [randomString] gives it [length]
    iterations, which is always enough when every faker word is non-empty
    (gofakeit draws words from a fixed dictionary).  Running out is
    [Diverge]. *)
Fixpoint appendWords (fuel : nat) (result : string) (length : Z) : M string :=
  if slen result <? length then
    match fuel with
    | O => fun g => (Diverge, g)
    | S f => w <- faker FWord ;; appendWords f (result ++ w)%string length
    end
  else ret result.

(** [randomString] *)
Definition randomString (length : Z) : M string :=
  if length <=? 0 then ret ""%string
  else if length <=? 3 then LetterN length
  else
    w <- faker FWord ;;
    result <- appendWords (Z.to_nat length) w length ;;
    if slen result >? length
    then ret (substring 0 (Z.to_nat length) result)
    else ret result.

(** [generateString] *)
Definition generateString (schema : Schema) : M string :=
  if negb (String.eqb (Pattern schema) "") then
    generateStringFromPattern (Pattern schema)
  else if negb (String.eqb (Format schema) "") then
    generateStringFromFormat (Format schema)
  else
    let minLen := match MinLength schema with Some m => m | None => 0 end in
    let maxLen0 := match MaxLength schema with Some m => m | None => 20 end in
    let maxLen := if minLen >? maxLen0 then minLen else maxLen0 in
    if maxLen >? minLen then
      n <- Intn (wrap64 (maxLen - minLen + 1)) ;;
      randomString (wrap64 (minLen + n))
    else randomString minLen.

(** ** Number generation *)

(** [math.Round]: half away from zero. *)
Definition go_round (q : Q) : Z :=
  if Qle_bool 0 q then Qfloor (q + (1 # 2))%Q
  else - Qfloor (- q + (1 # 2))%Q.

(** [int64(x)]: truncation toward zero.  A value out of the [int64] range
    gives an implementation-defined result; on amd64 ([CVTTSD2SQ]) it is
    [-2^63]. *)
Definition go_trunc (q : Q) : Z :=
  let t := if Qle_bool 0 q then Qfloor q else - Qfloor (- q)%Q in
  if (- 2 ^ 63 <=? t) && (t <? 2 ^ 63) then t else - 2 ^ 63.

(** The [float64] nearest to the integer [z] (ties to even), i.e. the value
    of [float64(z)] for an [int64] [z], and the rounded result of a [float64]
    operation whose exact result is the integer [z] (for [|z| < 2^1024]):
    the 53 leading bits of [|z|] are kept. *)
Definition float64_of_int (z : Z) : Z :=
  let a := Z.abs z in
  let e := Z.max 0 (Z.log2 a - 52) in
  let q := Z.shiftr a e in
  let r := a - Z.shiftl q e in
  let half := Z.shiftl 1 e / 2 in
  let q' := if (half <? r) || ((r =? half) && (0 <? e) && Z.odd q) then q + 1 else q in
  Z.sgn z * Z.shiftl q' e.

(** The effective bounds computed at the top of [generateNumber]. *)
Definition number_min (schema : Schema) (isInteger : bool) : Q :=
  match Minimum schema with
  | Some m => m
  | None =>
      match ExclusiveMinimum schema with
      | Some m => if isInteger then inject_Z (Qceiling m) else m
      | None => 0%Q
      end
  end.

Definition number_max (schema : Schema) (isInteger : bool) : Q :=
  match Maximum schema with
  | Some m => m
  | None =>
      match ExclusiveMaximum schema with
      | Some m => if isInteger then inject_Z (float64_of_int (Qfloor m - 1)) else m
      | None => 1000%Q
      end
  end.

(** The [multipleOf] correction. *)
Definition multiple_adjust (result multiple min max : Q) : Q :=
  let r1 := (inject_Z (go_round (result / multiple)) * multiple)%Q in
  let r2 := if Qltb r1 min then (r1 + multiple)%Q else r1 in
  if Qltb max r2 then (r2 - multiple)%Q else r2.

(** [generateNumber].  A [float64] is its exact value in [Q]: the
    comparisons, [math.Ceil] and [math.Floor] are exact; [math.Floor(max) - 1]
    and [float64(...)] of an [int64] are rounded with [float64_of_int], the
    [int64] subtraction and addition wrap around.  The [number] path
    [min + Float64()*(max-min)] and the [multipleOf] correction are computed
    exactly, without rounding nor infinities. *)
Definition generateNumber (schema : Schema) (isInteger : bool) : M Value :=
  let min := number_min schema isInteger in
  let max := number_max schema isInteger in
  if Qltb max min then fail (EBounds min max)
  else
    result <- (if isInteger then
                 let intMin := go_trunc (inject_Z (Qceiling min)) in
                 let intMax := go_trunc (inject_Z (Qfloor max)) in
                 if intMin >? intMax then ret (inject_Z (float64_of_int intMin))
                 else (k <- Int63n (wrap64 (intMax - intMin + 1)) ;;
                       ret (inject_Z (float64_of_int (wrap64 (intMin + k)))))
               else (f <- Float64 ;; ret (min + f * (max - min))%Q)) ;;
    let result' :=
      match MultipleOf schema with
      | Some m => if Qltb 0%Q m then multiple_adjust result m min max else result
      | None => result
      end in
    if isInteger then ret (VInt (go_trunc result')) else ret (VNum result').

(** [generateBoolean] *)
Definition generateBoolean : M bool :=
  n <- Intn 2 ;; ret (n =? 1).

(** ** Object generation *)

(** The loop [for fieldName, fieldSchema := range schema.Properties] of
    [generateObject], over the entries in iteration order; each entry carries
    the call [g.generate(fieldSchema, depth+1)]. *)
Fixpoint genFields (requiredMap : list string)
  (fields : list (string * M Value)) (result : list (string * Value))
  : M (list (string * Value)) :=
  match fields with
  | [] => ret result
  | (fieldName, genField) :: rest =>
      g <- get_gen ;;
      if existsb (String.eqb fieldName) requiredMap || GenerateAllFields g then
        value <- wrap_err (EField fieldName) genField ;;
        genFields requiredMap rest (map_insert fieldName value result)
      else genFields requiredMap rest result
  end.

(** [additionalProperties: true]: [numExtra] word/word entries. *)
Fixpoint extraWords (n : nat) (result : list (string * Value))
  : M (list (string * Value)) :=
  match n with
  | O => ret result
  | S k =>
      key <- faker FWord ;;
      value <- faker FWord ;;
      extraWords k (map_insert key (VStr value) result)
  end.

(** [additionalProperties] given as a schema: [numExtra] entries whose value
    is [g.generate(apSchema, depth+1)]; [if err == nil] keeps the entry only
    when that call succeeded. *)
Fixpoint extraValues (n : nat) (genValue : M Value)
  (result : list (string * Value)) : M (list (string * Value)) :=
  match n with
  | O => ret result
  | S k =>
      key <- faker FWord ;;
      fun g =>
        match genValue g with
        | (Ok value, g') => extraValues k genValue (map_insert key value result) g'
        | (Err _, g') => extraValues k genValue result g'
        | (Panic, g') => (Panic, g')
        | (Diverge, g') => (Diverge, g')
        end
  end.

(** [g.generate(fieldSchema, depth+1)] on a [*Schema] taken from a map;
    [gen] is [g.generate] on a non-nil pointer.  On a nil pointer,
    [generateWithContext] passes the cancellation check ([g.generate] uses
    [context.Background()]) and the depth check, then panics on
    [schema.Const]. *)
Definition generatePtr (gen : Schema -> Z -> M Value) (p : option Schema) (depth : Z)
  : M Value :=
  match p with
  | Some s => gen s depth
  | None =>
      g <- get_gen ;;
      if depth >=? MaxDepth g then fail (EDepth (MaxDepth g)) else panic
  end.

(** [generateObject]; [gen] is [g.generate]. *)
Definition generateObject (gen : Schema -> Z -> M Value) (schema : Schema)
  (depth : Z) : M Value :=
  match Properties schema with
  | None => ret (VObj [])
  | Some props =>
      let requiredMap := Required schema in
      fields <- range_map (map (fun p => (fst p, generatePtr gen (snd p) (depth + 1))) props) ;;
      result <- genFields requiredMap fields [] ;;
      g <- get_gen ;;
      result <-
        (if GenerateAllFields g then
           match AdditionalProperties schema with
           | APNone => ret result
           | APBool true => numExtra <- Intn 3 ;; extraWords (Z.to_nat numExtra) result
           | APBool false => ret result
           | APMap None => ret result
           | APMap (Some apSchema) =>
               numExtra <- Intn 3 ;;
               extraValues (Z.to_nat numExtra) (gen apSchema (depth + 1)) result
           | APOther => ret result
           end
         else ret result) ;;
      ret (VObj result)
  end.

(** ** Array generation *)

(** No [items]: every slot is a faker word. *)
Fixpoint fillWords (n : nat) : M (list Value) :=
  match n with
  | O => ret []
  | S k => w <- faker FWord ;; rest <- fillWords k ;; ret (VStr w :: rest)
  end.

(** One [items] schema: slot [i] is [g.generate(itemSchema, depth+1)]. *)
Fixpoint genItems (i : Z) (n : nat) (genItem : M Value) : M (list Value) :=
  match n with
  | O => ret []
  | S k =>
      v <- wrap_err (EItem i) genItem ;;
      rest <- genItems (i + 1) k genItem ;;
      ret (v :: rest)
  end.

(** Tuple [items]: slot [i] from [items[i]] while [i < len(items)], a faker
    word beyond; [items] is the part of the tuple from slot [i] on. *)
Fixpoint genTuple (i : Z) (n : nat) (items : list (option (M Value)))
  : M (list Value) :=
  match n with
  | O => ret []
  | S k =>
      v <- (match items with
            | Some genItem :: _ => wrap_err (EItem i) genItem
            | None :: _ => fail (EItemsParseAt i)
            | [] => w <- faker FWord ;; ret (VStr w)
            end) ;;
      rest <- genTuple (i + 1) k (tl items) ;;
      ret (v :: rest)
  end.

(** [generateArray] *)
Definition generateArray (gen : Schema -> Z -> M Value) (schema : Schema)
  (depth : Z) : M Value :=
  let minItems := match MinItems schema with Some m => m | None => 0 end in
  let maxItems0 := match MaxItems schema with Some m => m | None => 5 end in
  let maxItems := if minItems >? maxItems0 then minItems else maxItems0 in
  length <- (if maxItems >? minItems then
               n <- Intn (wrap64 (maxItems - minItems + 1)) ;; ret (wrap64 (minItems + n))
             else ret minItems) ;;
  if length <? 0 then panic
  else
    let n := Z.to_nat length in
    match Items schema with
    | INone => l <- fillWords n ;; ret (VArr l)
    | IMap None => fail EItemsParse
    | IMap (Some itemSchema) =>
        l <- genItems 0 n (gen itemSchema (depth + 1)) ;; ret (VArr l)
    | IList items =>
        l <- genTuple 0 n (map (option_map (fun c => gen c (depth + 1))) items) ;;
        ret (VArr l)
    | IOther => fail EItemsType
    end.

(** ** Composition *)

Definition handleOneOf (gen : Schema -> Z -> M Value) (schema : Schema)
  (depth : Z) : M Value :=
  match OneOf schema with
  | [] => fail EEmptyOneOf
  | l =>
      i <- Intn (Z.of_nat (List.length l)) ;;
      chosen <- index (map (fun c => gen c depth) l) i ;;
      chosen
  end.

Definition handleAnyOf (gen : Schema -> Z -> M Value) (schema : Schema)
  (depth : Z) : M Value :=
  match AnyOf schema with
  | [] => fail EEmptyAnyOf
  | l =>
      i <- Intn (Z.of_nat (List.length l)) ;;
      chosen <- index (map (fun c => gen c depth) l) i ;;
      chosen
  end.

Definition handleAllOf (gen : Schema -> Z -> M Value) (schema : Schema)
  (depth : Z) : M Value :=
  match AllOf schema with
  | [] => fail EEmptyAllOf
  | first :: _ => gen first depth
  end.

(** ** Type dispatch *)

(** [generateByType] from [if len(types) == 0] on. *)
Definition generateByTypeSingle (gen : Schema -> Z -> M Value)
  (schema : Schema) (depth : Z) : M Value :=
  match GetTypes (Type_ schema) with
  | [] => fail ENoType
  | typeName :: _ =>
      if String.eqb typeName "string" then
        s <- generateString schema ;; ret (VStr s)
      else if String.eqb typeName "number" then generateNumber schema false
      else if String.eqb typeName "integer" then generateNumber schema true
      else if String.eqb typeName "boolean" then
        b <- generateBoolean ;; ret (VBool b)
      else if String.eqb typeName "object" then generateObject gen schema depth
      else if String.eqb typeName "array" then generateArray gen schema depth
      else if String.eqb typeName "null" then ret VNull
      else fail (EUnsupportedType typeName)
  end.

Definition single_type (t : string) : StringOrArray :=
  {| Single := t; Multiple := []; IsArray := false |}.

(** [generateByType].  With several types, one is drawn and the call
    [g.generateByType(&modifiedSchema, depth)] is made on the copy; the copy
    has at most one type, so that call goes straight to
    [generateByTypeSingle] (lemma [generateByType_on_copy]). *)
Definition generateByType (gen : Schema -> Z -> M Value) (schema : Schema)
  (depth : Z) : M Value :=
  let types := GetTypes (Type_ schema) in
  if Nat.ltb 1 (List.length types) then
    i <- Intn (Z.of_nat (List.length types)) ;;
    chosenType <- index types i ;;
    let modifiedSchema := with_type schema (single_type chosenType) in
    generateByTypeSingle gen modifiedSchema depth
  else generateByTypeSingle gen schema depth.

(** ** The recursive entry point *)

(** [generateWithContext]; [cancelled] is [ctx.Done()] being ready.  The
    recursive calls all go through [g.generate], i.e. with
    [context.Background()], which is never cancelled. *)
Fixpoint generateWithContext (cancelled : bool) (schema : Schema) (depth : Z)
  {struct schema} : M Value :=
  if cancelled then fail ECancelled
  else
    g <- get_gen ;;
    if depth >=? MaxDepth g then fail (EDepth (MaxDepth g))
    else
      match Const schema with
      | Some c => ret c
      | None =>
          match Enum schema with
          | (_ :: _) as en => i <- Intn (Z.of_nat (List.length en)) ;; index en i
          | [] =>
              if negb (Nat.eqb (List.length (OneOf schema)) 0) then
                handleOneOf (generateWithContext false) schema depth
              else if negb (Nat.eqb (List.length (AnyOf schema)) 0) then
                handleAnyOf (generateWithContext false) schema depth
              else if negb (Nat.eqb (List.length (AllOf schema)) 0) then
                handleAllOf (generateWithContext false) schema depth
              else if negb (IsEmpty (Type_ schema)) then
                generateByType (generateWithContext false) schema depth
              else
                match Properties schema with
                | Some _ => generateObject (generateWithContext false) schema depth
                | None =>
                    match Items schema with
                    | INone => ret (VObj [])
                    | _ => generateArray (generateWithContext false) schema depth
                    end
                end
          end
      end.

(** [generate]: [generateWithContext(context.Background(), ...)]. *)
Definition generate (schema : Schema) (depth : Z) : M Value :=
  generateWithContext false schema depth.

End Engine.

(** [Generate] on an already parsed schema: validate, then [generate] from
    depth 0. *)
Definition Generate (lib : Lib) (rt : Runtime) (schema : Schema) : M Value :=
  match Validate (validate_order rt) schema with
  | Panics => panic
  | Returns (Some e) => fail (EInvalidSchema e)
  | Returns None => generate lib rt schema 0
  end.

(** ** Concrete instances

    A library instance used to run the model on examples: [Intn n] and
    [Int63n n] return [(seed + k) mod n] at the k-th draw, [Float64] returns
    [0], faker words are ["word"], [LetterN n] returns [n] letters ['a'], a
    UUID is 36 characters, and [reggen] returns its pattern. *)
Fixpoint letters (n : nat) : string :=
  match n with O => EmptyString | S k => String "a"%char (letters k) end.

Definition demoFaker (seed : Z) (pos : nat) (c : FakerCall) : string :=
  match c with
  | FUUID => "123e4567-e89b-12d3-a456-426614174000"
  | FEmail => "jon@example.com"
  | FDateRFC3339 => "2006-01-02T15:04:05Z"
  | FDateYMD => "2006-01-02"
  | FDateHMS => "15:04:05"
  | FIPv4 => "10.0.0.1"
  | FIPv6 => "::1"
  | FURL => "http://example.com"
  | FDomainName => "example.com"
  | FWord => "word"
  end.

Definition demoLib : Lib := {|
  rand_intn := fun seed pos n => (seed + Z.of_nat pos) mod n;
  rand_int63n := fun seed pos n => (seed + Z.of_nat pos) mod n;
  rand_float64 := fun _ _ => 0%Q;
  faker_call := demoFaker;
  faker_letterN := fun _ _ n => letters (Z.to_nat n);
  reggen_generate := fun p => Some p
|}.

(** Runtimes ranging over every map in stored order, or in reverse order. *)
Definition inOrder : Runtime := {|
  map_order := fun _ _ l => l;
  validate_order := fun _ _ l => l
|}.

Definition reversed : Runtime := {|
  map_order := fun _ _ l => rev l;
  validate_order := fun _ _ l => rev l
|}.

Definition typed (t : string) : Schema := with_type emptySchema (single_type t).

(** The schema of the determinism example of the specification:
    [{"type":"object","properties":{"name":{"type":"string","minLength":3,
    "maxLength":3},"age":{"type":"integer","minimum":100,"maximum":100}},
    "required":["name","age"]}]. *)
Definition nameAgeSchema : Schema :=
  set_Required ["name"; "age"]%string
    (set_Properties
       (Some [("name"%string, Some (set_MaxLength (Some 3) (set_MinLength (Some 3) (typed "string"))));
              ("age"%string, Some (set_Maximum (Some 100%Q) (set_Minimum (Some 100%Q) (typed "integer"))))])
       (typed "object")).

(** [Intn n] draws in [[0, n)], as [math/rand] documents. *)
Definition intn_in_range (lib : Lib) : Prop :=
  forall seed pos n, 0 < n -> 0 <= rand_intn lib seed pos n < n.

(** [s'] has the same value as [s] in every field but [Type]. *)
Definition agree_except_type (s s' : Schema) : Prop :=
  Title s' = Title s /\ Enum s' = Enum s /\ Const s' = Const s /\
  MinLength s' = MinLength s /\ MaxLength s' = MaxLength s /\
  Pattern s' = Pattern s /\ Format s' = Format s /\
  Minimum s' = Minimum s /\ Maximum s' = Maximum s /\
  ExclusiveMinimum s' = ExclusiveMinimum s /\
  ExclusiveMaximum s' = ExclusiveMaximum s /\ MultipleOf s' = MultipleOf s /\
  Properties s' = Properties s /\ Required s' = Required s /\
  AdditionalProperties s' = AdditionalProperties s /\ Items s' = Items s /\
  MinItems s' = MinItems s /\ MaxItems s' = MaxItems s /\
  OneOf s' = OneOf s /\ AnyOf s' = AnyOf s /\ AllOf s' = AllOf s /\
  Ref s' = Ref s /\ Definitions s' = Definitions s /\ Defs s' = Defs s.

(** [{"oneOf": []}], [{"anyOf": []}], [{"allOf": []}]: the keyword is
    present with an empty array ([len == 0], as for an absent keyword). *)
Definition emptyOneOf : Schema := set_OneOf [] emptySchema.
Definition emptyAnyOf : Schema := set_AnyOf [] emptySchema.
Definition emptyAllOf : Schema := set_AllOf [] emptySchema.

(** [{"const": 1, "enum": [2]}] and [{"const": 1}]. *)
Definition constAndEnum : Schema :=
  set_Enum [VInt 2] (set_Const (Some (VInt 1)) emptySchema).
Definition constOnly : Schema := set_Const (Some (VInt 1)) emptySchema.

(** Effective bounds of a number or integer schema, as the specification
    words them: [minimum] if present, else [exclusiveMinimum] (rounded up for
    integers), else 0; [maximum] if present, else [exclusiveMaximum] (rounded
    down then decremented for integers), else 1000. *)
Definition spec_effective_min (s : Schema) (isInteger : bool) : Q :=
  match Minimum s, ExclusiveMinimum s with
  | Some m, _ => m
  | None, Some e => if isInteger then inject_Z (Qceiling e) else e
  | None, None => 0%Q
  end.

Definition spec_effective_max (s : Schema) (isInteger : bool) : Q :=
  match Maximum s, ExclusiveMaximum s with
  | Some m, _ => m
  | None, Some e => if isInteger then inject_Z (Qfloor e - 1) else e
  | None, None => 1000%Q
  end.

(** The integer part of [exclusiveMaximum], when given, lies in
    [[-2^52, 2^52]], where [math.Floor(max) - 1] is computed exactly in
    float64. *)
Definition exmax_exact (s : Schema) : Prop :=
  forall e, ExclusiveMaximum s = Some e -> - 2 ^ 52 <= Qfloor e <= 2 ^ 52.

(** No positive [multipleOf]. *)
Definition no_positive_multiple (s : Schema) : Prop :=
  MultipleOf s = None \/ exists m, MultipleOf s = Some m /\ (m <= 0)%Q.

(** [{"type":"integer","minimum":0.5,"maximum":0.7,"multipleOf":3}] *)
Definition collapsedMultiple : Schema :=
  set_MultipleOf (Some 3%Q)
    (set_Maximum (Some (7 # 10)%Q) (set_Minimum (Some (1 # 2)%Q) (typed "integer"))).

(** [{"type":"integer","minimum":1e17,"exclusiveMaximum":1e17}] *)
Definition bigExclusive : Schema :=
  set_ExclusiveMaximum (Some (inject_Z (10 ^ 17)))
    (set_Minimum (Some (inject_Z (10 ^ 17))) (typed "integer")).

(** [{"oneOf":[{"type":"null"}]}] *)
Definition oneOfNull : Schema := set_OneOf [typed "null"] emptySchema.

(** [{"type":"object","properties":{},"additionalProperties":{"type":"bogus"}}] *)
Definition apBogus : Schema :=
  set_AdditionalProperties (APMap (Some (typed "bogus")))
    (set_Properties (Some []) (typed "object")).

(** [{"type":"object","properties":{"a":{"type":"boolean"},
    "b":{"type":"boolean"}},"required":["a","b"]}] *)
Definition abSchema : Schema :=
  set_Required ["a"; "b"]%string
    (set_Properties (Some [("a"%string, Some (typed "boolean")); ("b"%string, Some (typed "boolean"))])
       (typed "object")).

(** The runtime iterates every map in some order of its entries, in
    generation and in validation alike. *)
Definition runtime_permutes (rt : Runtime) : Prop :=
  (forall k A (l : list (string * A)), Permutation l (map_order rt k A l)) /\
  (forall k A (l : list (string * A)), Permutation l (validate_order rt k A l)).

(** [{"type":["string","null"]}] *)
Definition multiTyped : Schema :=
  with_type emptySchema {| Single := ""; Multiple := ["string"; "null"]%string; IsArray := true |}.

(** Contracts of gofakeit used for string lengths: [Word()] is never empty
    (it picks from a fixed dictionary) and [LetterN(n)] has [n] letters. *)
Definition words_nonempty (lib : Lib) : Prop :=
  forall seed pos, 0 < slen (faker_call lib seed pos FWord).

Definition letterN_exact (lib : Lib) : Prop :=
  forall seed pos n, 0 < n -> slen (faker_letterN lib seed pos n) = n.

(** [{"type":"string","format":"uuid","maxLength":5}] *)
Definition uuidMax5 : Schema :=
  set_MaxLength (Some 5) (set_Format "uuid" (typed "string")).

(** [{"type":"string","minLength":-9223372036854775808,"maxLength":0}] *)
Definition hugeLengthRange : Schema :=
  set_MaxLength (Some 0) (set_MinLength (Some (- 2 ^ 63)) (typed "string")).

(** An optional [*int] field holds a Go [int]. *)
Definition int_field (o : option Z) : Prop :=
  forall z, o = Some z -> - 2 ^ 63 <= z < 2 ^ 63.

(** ** Sub-schemas and generator configuration *)

(** The schemas [generate] may descend into from [s]: the properties, an
    [additionalProperties] schema, the [items] schemas and the composition
    branches. *)
Definition item_schemas (l : list (option Schema)) : list Schema :=
  flat_map (fun o => match o with Some c => [c] | None => [] end) l.

Definition children (s : Schema) : list Schema :=
  match Properties s with Some ps => item_schemas (map snd ps) | None => [] end ++
  match AdditionalProperties s with APMap (Some a) => [a] | _ => [] end ++
  match Items s with
  | IMap (Some c) => [c]
  | IList l => item_schemas l
  | _ => []
  end ++
  OneOf s ++ AnyOf s ++ AllOf s.

(** Number of schema nodes. *)
Fixpoint ssize (s : Schema) : nat :=
  S (match Properties s with
     | Some ps => list_sum (map (fun p => match snd p with Some c => ssize c | None => 0 end) ps)
     | None => 0
     end +
     match AdditionalProperties s with APMap (Some a) => ssize a | _ => 0 end +
     match Items s with
     | IMap (Some c) => ssize c
     | IList l => list_sum (map (fun o => match o with Some c => ssize c | None => 0 end) l)
     | _ => 0
     end +
     list_sum (map ssize (OneOf s)) + list_sum (map ssize (AnyOf s)) +
     list_sum (map ssize (AllOf s)))%nat.

(** [generate] never changes [generateAllFields] nor [maxDepth]. *)
Definition same_cfg (g g' : Generator) : Prop :=
  GenerateAllFields g' = GenerateAllFields g /\ MaxDepth g' = MaxDepth g.

Definition keeps {A} (m : M A) : Prop := forall g, same_cfg g (snd (m g)).

(** [{"type":"object","properties":{"a":{"type":"null"},"b":{"type":"null"}},
    "required":["a","c"]}] *)
Definition selProps : list (string * option Schema) :=
  [("a"%string, Some (typed "null")); ("b"%string, Some (typed "null"))].

Definition selSchema : Schema :=
  set_Required ["a"; "c"]%string (set_Properties (Some selProps) (typed "object")).

(** [reach s p c q]: the node [c], at path [q], is met by
    [ValidateWithDetails] started on [s] at path [p]: through [properties]
    (path [propPath]) and [oneOf]/[anyOf]/[allOf] branches (path
    [compPath]). *)
Inductive reach : Schema -> string -> Schema -> string -> Prop :=
| reach_here (s : Schema) (p : string) : reach s p s p
| reach_prop (s : Schema) (p : string) (ps : list (string * option Schema)) (k : string)
    (c c' : Schema) (q : string) :
    Properties s = Some ps -> In (k, Some c) ps -> reach c (propPath p k) c' q -> reach s p c' q
| reach_oneOf (s : Schema) (p : string) (i : nat) (c c' : Schema) (q : string) :
    nth_error (OneOf s) i = Some c -> reach c (compPath p "oneOf" i) c' q -> reach s p c' q
| reach_anyOf (s : Schema) (p : string) (i : nat) (c c' : Schema) (q : string) :
    nth_error (AnyOf s) i = Some c -> reach c (compPath p "anyOf" i) c' q -> reach s p c' q
| reach_allOf (s : Schema) (p : string) (i : nat) (c c' : Schema) (q : string) :
    nth_error (AllOf s) i = Some c -> reach c (compPath p "allOf" i) c' q -> reach s p c' q.

(** [{"type":"object","properties":{"a":{"minLength":2,"maxLength":1}}}] *)
Definition nestedBad : Schema :=
  set_Properties (Some [("a"%string, Some (set_MaxLength (Some 1) (set_MinLength (Some 2) emptySchema)))])
    (typed "object").

(** [{"minimum":2,"maximum":1,"properties":{"a":null}}] *)
Definition nilPropBad : Schema :=
  set_Properties (Some [("a"%string, None)])
    (set_Maximum (Some 1%Q) (set_Minimum (Some 2%Q) emptySchema)).

(** [{"type":"array","items":{"type":"string","minLength":10,"maxLength":5}}] *)
Definition itemsBad : Schema :=
  set_Items (IMap (Some (set_MaxLength (Some 5) (set_MinLength (Some 10) (typed "string")))))
    (typed "array").

(** [{"type":"object","properties":{"a":{"minimum":2,"maximum":1},
    "b":{"minimum":2,"maximum":1}}}] *)
Definition twoBad : Schema :=
  set_Properties
    (Some [("a"%string, Some (set_Maximum (Some 1%Q) (set_Minimum (Some 2%Q) emptySchema)));
           ("b"%string, Some (set_Maximum (Some 1%Q) (set_Minimum (Some 2%Q) emptySchema)))])
    (typed "object").

(** ** The [StringOrArray] methods not used by the generator *)

(** [Contains] of the current version of the file, with [slices.Contains]. *)
Definition Contains (s : StringOrArray) (typeName : string) : bool :=
  if negb (IsArray s) then String.eqb (Single s) typeName
  else existsb (fun t => String.eqb t typeName) (Multiple s).

(** JSON documents, as [encoding/json] decodes them; the byte-level parser is
    not modelled, a document is given by its value. *)
Inductive JSON : Type :=
| JNull
| JBool (b : bool)
| JNumber (q : Q)
| JString (s : string)
| JArray (l : list JSON)
| JObject (m : list (string * JSON)).

(** [json.Unmarshal(data, &single)] with [single] a fresh [string]: a JSON
    string is stored, [null] leaves the zero value [""], anything else is an
    [UnmarshalTypeError] ([None]). *)
Definition unmarshal_string (data : JSON) : option string :=
  match data with
  | JString s => Some s
  | JNull => Some ""%string
  | _ => None
  end.

(** [json.Unmarshal(data, &multiple)] with [multiple] a fresh [[]string]:
    [null] leaves the nil slice, an array is decoded element by element (an
    element that does not decode as a string makes the whole call fail),
    anything else fails. *)
Definition unmarshal_strings (data : JSON) : option (list string) :=
  match data with
  | JNull => Some []
  | JArray l =>
      fold_right (fun j acc =>
        match unmarshal_string j, acc with
        | Some s, Some r => Some (s :: r)
        | _, _ => None
        end) (Some []) l
  | _ => None
  end.

(** The method [UnmarshalJSON] of [*StringOrArray], on the receiver [s]: [Some] of the
    receiver after the call, or [None] when the call returns an error (the
    receiver is then unchanged). *)
Definition UnmarshalJSON (s : StringOrArray) (data : JSON) : option StringOrArray :=
  match unmarshal_string data with
  | Some single => Some {| Single := single; Multiple := Multiple s; IsArray := false |}
  | None =>
      match unmarshal_strings data with
      | None => None
      | Some multiple => Some {| Single := Single s; Multiple := multiple; IsArray := true |}
      end
  end.

(** Width of the UTF-8 sequence at the head of [s], as
    [utf8.DecodeRuneInString] accepts it (shortest form, no surrogate, at
    most U+10FFFF); [0] where it reports [RuneError] of width 1. *)
Definition byte_in (lo hi : nat) (b : ascii) : bool :=
  (lo <=? nat_of_ascii b)%nat && (nat_of_ascii b <=? hi)%nat.

Definition utf8_width (s : string) : nat :=
  match s with
  | EmptyString => 0
  | String b0 r =>
      let x := nat_of_ascii b0 in
      let lo := if (x =? 224)%nat then 160%nat
                else if (x =? 240)%nat then 144%nat else 128%nat in
      let hi := if (x =? 237)%nat then 159%nat
                else if (x =? 244)%nat then 143%nat else 191%nat in
      if (x <? 128)%nat then 1
      else if (194 <=? x)%nat && (x <=? 223)%nat then
        match r with
        | String b1 _ => if byte_in 128 191 b1 then 2 else 0
        | _ => 0
        end
      else if (224 <=? x)%nat && (x <=? 239)%nat then
        match r with
        | String b1 (String b2 _) =>
            if byte_in lo hi b1 && byte_in 128 191 b2 then 3 else 0
        | _ => 0
        end
      else if (240 <=? x)%nat && (x <=? 244)%nat then
        match r with
        | String b1 (String b2 (String b3 _)) =>
            if byte_in lo hi b1 && byte_in 128 191 b2 && byte_in 128 191 b3 then 4 else 0
        | _ => 0
        end
      else 0
  end.

(** The encoding of U+FFFD. *)
Definition replacement_char : string :=
  String "239"%char (String "191"%char (String "189"%char EmptyString)).

(** The string [json.Marshal] encodes: each byte that starts no valid UTF-8
    sequence is replaced by U+FFFD; [k] is the number of bytes still to copy
    of the sequence being read. *)
Fixpoint coerce_utf8_from (k : nat) (s : string) : string :=
  match s with
  | EmptyString => EmptyString
  | String b r =>
      match k with
      | S k' => String b (coerce_utf8_from k' r)
      | O =>
          match utf8_width s with
          | O => replacement_char ++ coerce_utf8_from 0 r
          | S w => String b (coerce_utf8_from w r)
          end
      end
  end.

Definition coerce_utf8 (s : string) : string := coerce_utf8_from 0 s.

(** [utf8.ValidString]. *)
Fixpoint valid_utf8_from (k : nat) (s : string) : bool :=
  match s with
  | EmptyString => true
  | String _ r =>
      match k with
      | S k' => valid_utf8_from k' r
      | O =>
          match utf8_width s with
          | O => false
          | S w => valid_utf8_from w r
          end
      end
  end.

Definition valid_utf8 (s : string) : bool := valid_utf8_from 0 s.

(** [StringOrArray.MarshalJSON].  [json.Marshal] of a [[]string] gives an
    array, except for a nil slice, which gives [null]; an empty [Multiple]
    here is the empty non-nil slice [[]].  [json.Marshal] of a string
    encodes [coerce_utf8] of it. *)
Definition MarshalJSON (s : StringOrArray) : JSON :=
  if IsArray s then JArray (map (fun t => JString (coerce_utf8 t)) (Multiple s))
  else JString (coerce_utf8 (Single s)).

(** ** The first version of the file

    [schema.go] also holds an earlier version of [Contains] (an explicit loop)
    and of [Validate] (the checks of the node itself, no recursion, the first
    failing check returned with no path). *)
Module V1.

Definition Contains (s : StringOrArray) (typeName : string) : bool :=
  if negb (IsArray s) then String.eqb (Single s) typeName
  else (fix loop (l : list string) : bool :=
          match l with
          | [] => false
          | t :: r => if String.eqb t typeName then true else loop r
          end) (Multiple s).

Definition Validate (s : Schema) : option VMsg :=
  match
    match Minimum s, Maximum s with
    | Some mn, Some mx => if Qltb mx mn then Some (MsgMinMax mn mx) else None
    | _, _ => None
    end
  with
  | Some m => Some m
  | None =>
  match
    match ExclusiveMinimum s, ExclusiveMaximum s with
    | Some emn, Some emx => if Qle_bool emx emn then Some (MsgExclusive emn emx) else None
    | _, _ => None
    end
  with
  | Some m => Some m
  | None =>
  match
    match MinLength s, MaxLength s with
    | Some mn, Some mx => if mn >? mx then Some (MsgLength mn mx) else None
    | _, _ => None
    end
  with
  | Some m => Some m
  | None =>
    match MinItems s, MaxItems s with
    | Some mn, Some mx => if mn >? mx then Some (MsgItems mn mx) else None
    | _, _ => None
    end
  end
  end
  end.

End V1.

(** [GenerateWithContext] on an already parsed schema: validate, then
    [generateWithContext(ctx, schema, 0)]; [cancelled] is [ctx.Done()] being
    ready when that call checks it. *)
Definition GenerateWithContext (lib : Lib) (rt : Runtime) (cancelled : bool)
  (schema : Schema) : M Value :=
  match Validate (validate_order rt) schema with
  | Panics => panic
  | Returns (Some e) => fail (EInvalidSchema e)
  | Returns None => generateWithContext lib rt cancelled schema 0
  end.

(** Contract of [math/rand]: [Int63n n] draws in [[0, n)]. *)
Definition int63n_in_range (lib : Lib) : Prop :=
  forall seed pos n, 0 < n -> 0 <= rand_int63n lib seed pos n < n.

(** A JSON element that decodes as a string, and the string it decodes to. *)
Definition string_or_null (j : JSON) : bool :=
  match j with JString _ | JNull => true | _ => false end.

Definition json_str (j : JSON) : string :=
  match j with JString s => s | _ => ""%string end.

(** ** Sample schemas for the further properties *)

(** [{"minimum":2,"maximum":1}] *)
Definition minAboveMax : Schema :=
  set_Maximum (Some 1%Q) (set_Minimum (Some 2%Q) emptySchema).

(** [{"type":"array","minItems":2,"maxItems":3}] *)
Definition arr2to3 : Schema :=
  set_MaxItems (Some 3) (set_MinItems (Some 2) (typed "array")).

(** [{"type":"array","minItems":-1,"maxItems":-1}] *)
Definition arrNegative : Schema :=
  set_MaxItems (Some (-1)) (set_MinItems (Some (-1)) (typed "array")).

(** [{"type":"array","items":[{"type":"null"}],"minItems":2,"maxItems":2}] *)
Definition tupleNull : Schema :=
  set_MaxItems (Some 2) (set_MinItems (Some 2) (set_Items (IList [Some (typed "null")]) (typed "array"))).

(** [{"type":"object","additionalProperties":true}] *)
Definition apOnly : Schema := set_AdditionalProperties (APBool true) (typed "object").

(** [{"type":"object","properties":{"a":{"type":"null"}},"additionalProperties":true}] *)
Definition apWithProp : Schema :=
  set_AdditionalProperties (APBool true)
    (set_Properties (Some [("a"%string, Some (typed "null"))]) (typed "object")).

(** [{"type":"integer","minimum":1,"maximum":5}] *)
Definition int1to5 : Schema :=
  set_Maximum (Some 5%Q) (set_Minimum (Some 1%Q) (typed "integer")).

(** [{"type":["string",null]}], whose [null] element decodes to [""]. *)
Definition typesWithNull : Schema :=
  with_type emptySchema {| Single := ""; Multiple := ["string"; ""]%string; IsArray := true |}.

(** [{"type":"string","maxLength":0}] *)
Definition maxLength0 : Schema := set_MaxLength (Some 0) (typed "string").

(** ** Facts about the engine *)

Section Facts.

Variable lib : Lib.
Variable rt : Runtime.

(** One step of [generate] on a schema that passes the depth check and has
    neither [const] nor [enum]. *)
Lemma generate_dispatch (s : Schema) (d : Z) (g : Generator) :
  d < MaxDepth g -> Const s = None -> Enum s = [] ->
  generate lib rt s d g =
  (if negb (Nat.eqb (List.length (OneOf s)) 0) then
     handleOneOf lib (generate lib rt) s d
   else if negb (Nat.eqb (List.length (AnyOf s)) 0) then
     handleAnyOf lib (generate lib rt) s d
   else if negb (Nat.eqb (List.length (AllOf s)) 0) then
     handleAllOf (generate lib rt) s d
   else if negb (IsEmpty (Type_ s)) then
     generateByType lib rt (generate lib rt) s d
   else
     match Properties s with
     | Some _ => generateObject lib rt (generate lib rt) s d
     | None =>
         match Items s with
         | INone => ret (VObj [])
         | _ => generateArray lib (generate lib rt) s d
         end
     end) g.
Proof.
  intros Hd Hc He.
  destruct s; simpl in Hc, He; subst.
  unfold generate; cbn [generateWithContext].
  unfold bind, get_gen; cbn [fst snd].
  replace (d >=? MaxDepth g) with false by lia.
  reflexivity.
Qed.

(** A copy made by [with_type] with a single type goes straight to
    [generateByTypeSingle] when passed to [generateByType]. *)
Lemma generateByType_on_copy (gen : Schema -> Z -> M Value) (s : Schema)
  (t : string) (d : Z) :
  generateByType lib rt gen (with_type s (single_type t)) d =
  generateByTypeSingle lib rt gen (with_type s (single_type t)) d.
Proof.
  unfold generateByType; cbn [Type_ with_type].
  unfold GetTypes, single_type; cbn [IsArray Single negb].
  destruct (String.eqb t ""); reflexivity.
Qed.

Lemma index_nth {A} (l : list A) (i : Z) (a : A) (g : Generator) :
  0 <= i -> nth_error l (Z.to_nat i) = Some a -> index l i g = (Ok a, g).
Proof.
  intros Hi Hn. unfold index.
  replace (i <? 0) with false by lia. rewrite Hn. reflexivity.
Qed.

Lemma index_in {A} (l : list A) (i : Z) (g : Generator) :
  0 <= i < Z.of_nat (List.length l) ->
  exists a, index l i g = (Ok a, g) /\ In a l.
Proof.
  intros Hi.
  destruct (nth_error l (Z.to_nat i)) as [a|] eqn:Hn.
  - exists a. split; [apply index_nth; [lia | exact Hn] | eapply nth_error_In; eauto].
  - apply nth_error_None in Hn. lia.
Qed.

Lemma go_trunc_inject (z : Z) : - 2 ^ 63 <= z < 2 ^ 63 -> go_trunc (inject_Z z) = z.
Proof.
  intros Hz. unfold go_trunc.
  assert (Ht : (if Qle_bool 0 (inject_Z z) then Qfloor (inject_Z z)
                else - Qfloor (- inject_Z z)%Q) = z).
  { destruct (Qle_bool 0 (inject_Z z)).
    - apply Qfloor_Z.
    - change (- inject_Z z)%Q with (inject_Z (- z)). rewrite Qfloor_Z. lia. }
  rewrite Ht. replace ((- 2 ^ 63 <=? z) && (z <? 2 ^ 63)) with true by lia. reflexivity.
Qed.

(** No wrap-around inside the int64 range. *)
Lemma wrap64_high (z : Z) : 2 ^ 63 <= z < 2 ^ 64 + 2 ^ 63 -> wrap64 z = z - 2 ^ 64.
Proof.
  intros H. unfold wrap64.
  replace (z + 2 ^ 63) with ((z + 2 ^ 63 - 2 ^ 64) + 1 * 2 ^ 64) by lia.
  rewrite Z.mod_add, Z.mod_small by lia. lia.
Qed.

Lemma wrap64_id (z : Z) : - 2 ^ 63 <= z < 2 ^ 63 -> wrap64 z = z.
Proof. intros Hz. unfold wrap64. rewrite Z.mod_small by lia. lia. Qed.

(** [float64(z)] is [z] below [2^53]. *)
Lemma float64_of_int_small (z : Z) : Z.abs z < 2 ^ 53 -> float64_of_int z = z.
Proof.
  intros Hz. unfold float64_of_int.
  assert (He : Z.max 0 (Z.log2 (Z.abs z) - 52) = 0).
  { destruct (Z.eq_dec (Z.abs z) 0) as [E|E]; [rewrite E; reflexivity|].
    assert (Z.log2 (Z.abs z) < 53) by (apply Z.log2_lt_pow2; lia). lia. }
  rewrite He. rewrite Z.shiftr_0_r, !Z.shiftl_0_r.
  replace (Z.abs z - Z.abs z) with 0 by lia.
  cbn [Z.ltb Z.eqb Z.compare andb orb Z.div].
  replace (1 / 2) with 0 by reflexivity. cbn.
  rewrite Z.mul_comm. apply Z.abs_sgn.
Qed.

Lemma Qltb_iff (x y : Q) : Qltb x y = true <-> (x < y)%Q.
Proof.
  unfold Qltb. rewrite negb_true_iff. split.
  - intros H. apply Qnot_le_lt. intros Hle. apply Qle_bool_iff in Hle. congruence.
  - intros H. destruct (Qle_bool y x) eqn:E; [|reflexivity].
    apply Qle_bool_iff in E. exfalso. apply (Qlt_not_le x y); assumption.
Qed.

Lemma number_min_spec (s : Schema) (b : bool) :
  number_min s b = spec_effective_min s b.
Proof.
  unfold number_min, spec_effective_min.
  destruct (Minimum s); [reflexivity|]. destruct (ExclusiveMinimum s); reflexivity.
Qed.

Lemma number_max_spec (s : Schema) (b : bool) :
  (b = true -> exmax_exact s) -> number_max s b = spec_effective_max s b.
Proof.
  intros Hx. unfold number_max, spec_effective_max.
  destruct (Maximum s); [reflexivity|]. destruct (ExclusiveMaximum s) as [e|] eqn:E; [|reflexivity].
  destruct b; [|reflexivity].
  specialize (Hx eq_refl e E). rewrite float64_of_int_small by lia. reflexivity.
Qed.

(** Past the bounds check, [generateNumber] never returns an error. *)
Lemma generateNumber_no_err (s : Schema) (b : bool) (g : Generator) :
  Qltb (number_max s b) (number_min s b) = false ->
  forall e g', generateNumber lib s b g <> (Err e, g').
Proof.
  intros H e g'. unfold generateNumber. rewrite H.
  destruct b; unfold bind, ret, Int63n, Float64.
  - destruct (_ >? _); [discriminate|].
    destruct (_ <=? 0); discriminate.
  - discriminate.
Qed.

Lemma IsEmpty_GetTypes (t : StringOrArray) :
  GetTypes t <> [] -> IsEmpty t = false.
Proof.
  unfold GetTypes, IsEmpty. destruct (IsArray t); cbn.
  - destruct (Multiple t); cbn; [congruence | reflexivity].
  - destruct (String.eqb (Single t) ""); cbn; congruence.
Qed.

(** The depth check. *)
Lemma generate_depth_exceeded (s : Schema) (d : Z) (g : Generator) :
  MaxDepth g <= d -> generate lib rt s d g = (Err (EDepth (MaxDepth g)), g).
Proof.
  intros Hd. destruct s.
  unfold generate; cbn [generateWithContext].
  unfold bind, get_gen; cbn [fst snd].
  replace (d >=? MaxDepth g) with true by lia.
  reflexivity.
Qed.

(** A schema with exactly one declared type and no composition keyword goes
    to [generateByTypeSingle]. *)
Lemma generate_single_type (s : Schema) (d : Z) (g : Generator) (t : string) :
  d < MaxDepth g -> Const s = None -> Enum s = [] ->
  OneOf s = [] -> AnyOf s = [] -> AllOf s = [] -> GetTypes (Type_ s) = [t] ->
  generate lib rt s d g = generateByTypeSingle lib rt (generate lib rt) s d g.
Proof.
  intros Hd Hc He Ho Ha Hl Ht.
  rewrite generate_dispatch by assumption.
  rewrite Ho, Ha, Hl. cbn [List.length Nat.eqb negb].
  rewrite IsEmpty_GetTypes by (rewrite Ht; discriminate). cbn [negb].
  unfold generateByType. rewrite Ht. reflexivity.
Qed.

(** A type name outside the switch is rejected, without touching the
    generator state. *)
Lemma generate_unsupported_type (d : Z) (g : Generator) :
  d < MaxDepth g ->
  generate lib rt (typed "bogus") d g = (Err (EUnsupportedType "bogus"), g).
Proof.
  intros Hd.
  rewrite (generate_single_type (typed "bogus") d g "bogus") by (reflexivity || lia).
  reflexivity.
Qed.

(** [extraValues] over a value computation that always fails keeps the map
    as it is and succeeds. *)
Lemma extraValues_all_err (genValue : M Value) (m : Z) (n : nat) :
  (forall g, MaxDepth g = m -> exists e, genValue g = (Err e, g)) ->
  forall r g, MaxDepth g = m -> exists g', extraValues lib n genValue r g = (Ok r, g').
Proof.
  intros Hv. induction n as [|n IH]; intros r g Hm.
  - exists g. reflexivity.
  - cbn [extraValues]. unfold bind at 1, faker.
    destruct (Hv (set_fpos g (S (fpos g))) Hm) as [e He]. rewrite He.
    apply IH. exact Hm.
Qed.

Lemma slen_append (a b : string) : slen (a ++ b) = slen a + slen b.
Proof.
  unfold slen. induction a as [|c a IH]; cbn [String.append String.length]; lia.
Qed.

Lemma length_substring0 (n : nat) (str : string) :
  (n <= String.length str)%nat -> String.length (substring 0 n str) = n.
Proof.
  revert n. induction str as [|c str IH]; intros n Hn.
  - cbn in Hn. assert (n = 0%nat) by lia. subst. reflexivity.
  - destruct n as [|n]; [reflexivity|].
    cbn [substring String.length]. cbn in Hn. rewrite IH by lia. reflexivity.
Qed.

(** The word loop of [randomString] reaches [length] within its fuel. *)
Lemma appendWords_reaches (fuel : nat) (result : string) (length : Z) (g : Generator) :
  words_nonempty lib -> length - slen result <= Z.of_nat fuel ->
  exists r g', appendWords lib fuel result length g = (Ok r, g') /\ length <= slen r.
Proof.
  intros Hw. revert result g.
  induction fuel as [|f IH]; intros result g Hf; cbn [appendWords].
  - replace (slen result <? length) with false by lia. exists result, g. split; [reflexivity | lia].
  - destruct (slen result <? length) eqn:E.
    + unfold bind at 1, faker.
      apply IH. rewrite slen_append. pose proof (Hw (fsrc g) (fpos g)). lia.
    + exists result, g. split; [reflexivity|]. apply Z.ltb_ge in E. exact E.
Qed.

(** [randomString length] has [max length 0] characters. *)
Lemma randomString_length (length : Z) (g : Generator) :
  words_nonempty lib -> letterN_exact lib ->
  exists r g', randomString lib length g = (Ok r, g') /\ slen r = Z.max length 0.
Proof.
  intros Hw Hl. unfold randomString.
  destruct (length <=? 0) eqn:E1.
  - exists EmptyString, g. split; [reflexivity|]. cbn. lia.
  - destruct (length <=? 3) eqn:E2.
    + unfold LetterN. eexists _, _. split; [reflexivity|]. rewrite Hl; lia.
    + unfold bind at 1, faker.
      set (w := faker_call lib (fsrc g) (fpos g) FWord).
      set (g1 := set_fpos g (S (fpos g))).
      destruct (appendWords_reaches (Z.to_nat length) w length g1) as [r [g2 [Hr Hge]]];
        [exact Hw | pose proof (Hw (fsrc g) (fpos g)); fold w in H; lia |].
      unfold bind. rewrite Hr.
      destruct (slen r >? length) eqn:E3.
      * eexists _, _. split; [reflexivity|].
        unfold slen. rewrite length_substring0; [lia|].
        unfold slen in E3. lia.
      * exists r, g2. split; [reflexivity | lia].
Qed.

Lemma letters_slen (n : Z) : 0 <= n -> slen (letters (Z.to_nat n)) = n.
Proof.
  intros Hn. unfold slen.
  assert (H : forall k, String.length (letters k) = k)
    by (induction k as [|k IH]; cbn; [reflexivity | rewrite IH; reflexivity]).
  rewrite H. lia.
Qed.

End Facts.

(** ** Induction over sub-schemas *)

Lemma list_sum_in {A} (f : A -> nat) (x : A) (l : list A) :
  In x l -> (f x <= list_sum (map f l))%nat.
Proof.
  induction l as [|y l IH]; cbn [In map list_sum fold_right]; [contradiction|].
  intros [->|H]; [apply Nat.le_add_r|].
  specialize (IH H). eapply Nat.le_trans; [exact IH | apply Nat.le_add_l].
Qed.

Lemma children_smaller (s c : Schema) : In c (children s) -> (ssize c < ssize s)%nat.
Proof.
  intros H.
  destruct s as [ty ti en co mnl mxl pa fo mi ma emi ema mo pr rq ap it mni mxi
                 oo ao lo rf dfs dfs'].
  unfold children in H. cbn [Properties AdditionalProperties Items OneOf AnyOf AllOf] in H.
  cbn [ssize Properties AdditionalProperties Items OneOf AnyOf AllOf].
  rewrite !in_app_iff in H.
  destruct H as [H | [H | [H | [H | [H | H]]]]].
  - destruct pr as [ps|]; [|contradiction].
    unfold item_schemas in H. apply in_flat_map in H as [o [Ho Hc]].
    destruct o as [c'|]; cbn in Hc; [|contradiction]. destruct Hc as [->|[]].
    apply in_map_iff in Ho as [p [Hp Hin]].
    pose proof (list_sum_in (fun p => match snd p with Some c => ssize c | None => 0%nat end)
                  p ps Hin). cbn in *. rewrite Hp in H. lia.
  - destruct ap as [|b|[a|]|]; cbn in H; try contradiction.
    destruct H as [<-|[]]. lia.
  - destruct it as [|[c'|]|l|]; cbn in H; try contradiction.
    + destruct H as [<-|[]]. lia.
    + unfold item_schemas in H. apply in_flat_map in H as [o [Ho Hc]].
      destruct o as [c'|]; cbn in Hc; [|contradiction]. destruct Hc as [->|[]].
      pose proof (list_sum_in (fun o => match o with Some c => ssize c | None => 0%nat end)
                    (Some c) l Ho). cbn in *. lia.
  - pose proof (list_sum_in ssize c oo H). lia.
  - pose proof (list_sum_in ssize c ao H). lia.
  - pose proof (list_sum_in ssize c lo H). lia.
Qed.

(** Induction on schemas, with the hypothesis on every sub-schema
    [generate] may descend into. *)
Lemma schema_children_ind (P : Schema -> Prop) :
  (forall s, (forall c, In c (children s) -> P c) -> P s) -> forall s, P s.
Proof.
  intros H s. remember (ssize s) as n eqn:En. revert s En.
  induction n as [n IH] using lt_wf_ind. intros s ->.
  apply H. intros c Hc. apply (IH (ssize c)); [apply children_smaller; exact Hc | reflexivity].
Qed.

Lemma in_children_prop (s c : Schema) (ps : list (string * option Schema)) (k : string) :
  Properties s = Some ps -> In (k, Some c) ps -> In c (children s).
Proof.
  intros E H. unfold children. rewrite E. apply in_or_app. left.
  unfold item_schemas. apply in_flat_map. exists (Some c). split; [|left; reflexivity].
  change (Some c) with (snd (k, Some c)). apply in_map. exact H.
Qed.

Lemma in_children_ap (s a : Schema) :
  AdditionalProperties s = APMap (Some a) -> In a (children s).
Proof. intros E. unfold children. rewrite E. apply in_or_app. right. left. reflexivity. Qed.

Lemma in_children_item (s c : Schema) : Items s = IMap (Some c) -> In c (children s).
Proof.
  intros E. unfold children. rewrite E. apply in_or_app. right. apply in_or_app. right.
  left. reflexivity.
Qed.

Lemma in_children_tuple (s c : Schema) (l : list (option Schema)) :
  Items s = IList l -> In (Some c) l -> In c (children s).
Proof.
  intros E H. unfold children. rewrite E. apply in_or_app. right. apply in_or_app. right.
  apply in_or_app. left. unfold item_schemas. apply in_flat_map. exists (Some c).
  split; [exact H | left; reflexivity].
Qed.

Lemma in_children_oneOf (s c : Schema) : In c (OneOf s) -> In c (children s).
Proof.
  intros H. unfold children. rewrite !in_app_iff. right. right. right. left. exact H.
Qed.

Lemma in_children_anyOf (s c : Schema) : In c (AnyOf s) -> In c (children s).
Proof.
  intros H. unfold children. rewrite !in_app_iff. right. right. right. right. left. exact H.
Qed.

Lemma in_children_allOf (s c : Schema) : In c (AllOf s) -> In c (children s).
Proof.
  intros H. unfold children. rewrite !in_app_iff. right. right. right. right. right. exact H.
Qed.

Lemma index_ok_in {A} (l : list A) (i : Z) (g g' : Generator) (a : A) :
  index l i g = (Ok a, g') -> In a l.
Proof.
  unfold index. destruct (i <? 0); [discriminate|].
  destruct (nth_error l (Z.to_nat i)) eqn:E; [|discriminate].
  intros H. inversion H. subst. eapply nth_error_In. exact E.
Qed.

(** ** The generator configuration is invariant *)

Lemma same_cfg_refl (g : Generator) : same_cfg g g.
Proof. split; reflexivity. Qed.

Lemma same_cfg_trans (g1 g2 g3 : Generator) :
  same_cfg g1 g2 -> same_cfg g2 g3 -> same_cfg g1 g3.
Proof. unfold same_cfg. intros [H1 H2] [H3 H4]. split; congruence. Qed.

Create HintDb keeps discriminated.

Section Invariant.

Variable lib : Lib.
Variable rt : Runtime.
Hypothesis Hmap : forall k A (l : list (string * A)), Permutation l (map_order rt k A l).

Lemma keeps_ret {A} (a : A) : keeps (ret a).
Proof. intros g. split; reflexivity. Qed.

Lemma keeps_fail {A} (e : GenError) : keeps (@fail A e).
Proof. intros g. split; reflexivity. Qed.

Lemma keeps_panic {A} : keeps (@panic A).
Proof. intros g. split; reflexivity. Qed.

Lemma keeps_diverge {A} : keeps (fun g : Generator => (@Diverge A, g)).
Proof. intros g. split; reflexivity. Qed.

Lemma keeps_get_gen : keeps get_gen.
Proof. intros g. split; reflexivity. Qed.

Lemma keeps_Intn (n : Z) : keeps (Intn lib n).
Proof. intros g. unfold Intn. destruct (n <=? 0); split; reflexivity. Qed.

Lemma keeps_Int63n (n : Z) : keeps (Int63n lib n).
Proof. intros g. unfold Int63n. destruct (n <=? 0); split; reflexivity. Qed.

Lemma keeps_Float64 : keeps (Float64 lib).
Proof. intros g. split; reflexivity. Qed.

Lemma keeps_faker (c : FakerCall) : keeps (faker lib c).
Proof. intros g. split; reflexivity. Qed.

Lemma keeps_LetterN (n : Z) : keeps (LetterN lib n).
Proof. intros g. split; reflexivity. Qed.

Lemma keeps_range_map {A} (m : list (string * A)) : keeps (range_map rt m).
Proof. intros g. split; reflexivity. Qed.

Lemma keeps_index {A} (l : list A) (i : Z) : keeps (index l i).
Proof.
  intros g. unfold index. destruct (i <? 0); [split; reflexivity|].
  destruct (nth_error l (Z.to_nat i)); split; reflexivity.
Qed.

Lemma keeps_wrap_err {A} (w : GenError -> GenError) (m : M A) :
  keeps m -> keeps (wrap_err w m).
Proof.
  intros Hm g. specialize (Hm g). unfold wrap_err.
  destruct (m g) as [[a|e| |] g']; exact Hm.
Qed.

Lemma keeps_bind_ok {A B} (m : M A) (f : A -> M B) :
  keeps m -> (forall g a g', m g = (Ok a, g') -> keeps (f a)) -> keeps (bind m f).
Proof.
  intros Hm Hf g. specialize (Hm g). unfold bind.
  destruct (m g) as [[a|e| |] g'] eqn:E; cbn in Hm |- *; try exact Hm.
  eapply same_cfg_trans; [exact Hm | apply (Hf g a g' E)].
Qed.

Lemma keeps_bind {A B} (m : M A) (f : A -> M B) :
  keeps m -> (forall a, keeps (f a)) -> keeps (bind m f).
Proof. intros Hm Hf. apply keeps_bind_ok; [exact Hm | intros; apply Hf]. Qed.

#[local] Hint Resolve keeps_ret keeps_fail keeps_panic keeps_diverge keeps_get_gen
  keeps_Intn keeps_Int63n keeps_Float64 keeps_faker keeps_LetterN keeps_range_map
  keeps_index keeps_wrap_err : keeps.

Ltac keeps_auto :=
  repeat (cbv beta zeta;
          match goal with
          | |- forall _, _ => intros ?
          | |- keeps (bind _ _) => apply keeps_bind; [|intros ?]
          | |- keeps (if ?b then _ else _) => destruct b
          | |- keeps (match ?x with _ => _ end) => destruct x
          | |- keeps _ => solve [eauto with keeps]
          end).

Lemma keeps_appendWords (fuel : nat) (result : string) (length : Z) :
  keeps (appendWords lib fuel result length).
Proof.
  revert result. induction fuel as [|f IH]; intros result; cbn [appendWords]; keeps_auto.
Qed.
#[local] Hint Resolve keeps_appendWords : keeps.

Lemma keeps_randomString (length : Z) : keeps (randomString lib length).
Proof. unfold randomString. keeps_auto. Qed.
#[local] Hint Resolve keeps_randomString : keeps.

Lemma keeps_generateString (s : Schema) : keeps (generateString lib s).
Proof.
  unfold generateString, generateStringFromPattern, generateStringFromFormat. keeps_auto.
Qed.

Lemma keeps_generateNumber (s : Schema) (b : bool) : keeps (generateNumber lib s b).
Proof. unfold generateNumber. keeps_auto. Qed.

Lemma keeps_generateBoolean : keeps (generateBoolean lib).
Proof. unfold generateBoolean. keeps_auto. Qed.
#[local] Hint Resolve keeps_generateString keeps_generateNumber keeps_generateBoolean : keeps.

Lemma keeps_genFields (req : list string) (fields : list (string * M Value))
  (result : list (string * Value)) :
  Forall (fun p => keeps (snd p)) fields -> keeps (genFields req fields result).
Proof.
  revert result. induction fields as [|[n gf] rest IH]; intros result Hf; cbn [genFields].
  - keeps_auto.
  - inversion Hf as [|? ? Hgf Hrest]; subst. cbn in Hgf.
    apply keeps_bind; [eauto with keeps|]. intros g.
    destruct (existsb (String.eqb n) req || GenerateAllFields g).
    + apply keeps_bind; [eauto with keeps|]. intros v. apply IH. exact Hrest.
    + apply IH. exact Hrest.
Qed.

Lemma keeps_extraWords (n : nat) (result : list (string * Value)) :
  keeps (extraWords lib n result).
Proof. revert result. induction n as [|n IH]; intros result; cbn [extraWords]; keeps_auto. Qed.

Lemma keeps_extraValues (n : nat) (genValue : M Value) (result : list (string * Value)) :
  keeps genValue -> keeps (extraValues lib n genValue result).
Proof.
  intros Hv. revert result. induction n as [|n IH]; intros result; cbn [extraValues].
  - keeps_auto.
  - apply keeps_bind; [eauto with keeps|]. intros key g.
    pose proof (Hv g) as H1.
    destruct (genValue g) as [[v|e| |] g1]; cbn in H1 |- *; try exact H1.
    + eapply same_cfg_trans; [exact H1 | apply IH].
    + eapply same_cfg_trans; [exact H1 | apply IH].
Qed.

Lemma keeps_fillWords (n : nat) : keeps (fillWords lib n).
Proof. induction n as [|n IH]; cbn [fillWords]; keeps_auto. Qed.

Lemma keeps_genItems (i : Z) (n : nat) (genItem : M Value) :
  keeps genItem -> keeps (genItems i n genItem).
Proof.
  intros Hi. revert i. induction n as [|n IH]; intros i; cbn [genItems]; keeps_auto.
Qed.

Lemma keeps_genTuple (i : Z) (n : nat) (items : list (option (M Value))) :
  (forall m, In (Some m) items -> keeps m) -> keeps (genTuple lib i n items).
Proof.
  revert i items. induction n as [|n IH]; intros i items Hi; cbn [genTuple].
  - keeps_auto.
  - apply keeps_bind.
    + destruct items as [|[m|] rest]; keeps_auto.
      apply keeps_wrap_err. apply Hi. left. reflexivity.
    + intros v. apply keeps_bind; [|keeps_auto].
      apply IH. intros m Hm. apply Hi. destruct items; [contradiction | right; exact Hm].
Qed.
#[local] Hint Resolve keeps_genFields keeps_extraWords keeps_extraValues keeps_fillWords
  keeps_genItems keeps_genTuple : keeps.

Section WithGen.

Variable gen : Schema -> Z -> M Value.
Variable s : Schema.
Hypothesis Hgen : forall c d, In c (children s) -> keeps (gen c d).

Lemma keeps_generateObject (d : Z) : keeps (generateObject lib rt gen s d).
Proof.
  unfold generateObject. destruct (Properties s) as [props|] eqn:Ep; [|keeps_auto].
  apply keeps_bind_ok; [eauto with keeps|]. intros g fields g' Hr.
  unfold range_map in Hr. inversion Hr; subst fields g'.
  apply keeps_bind.
  - apply keeps_genFields. apply Forall_forall. intros [k m] Hin.
    apply (Permutation_in _ (Permutation_sym (Hmap _ _ _))) in Hin.
    apply in_map_iff in Hin as [[k' [c|]] [Hp Hin]]; inversion Hp; subst;
      cbn [snd fst generatePtr]; [|keeps_auto].
    apply Hgen. eapply in_children_prop; eauto.
  - intros result. apply keeps_bind; [eauto with keeps|]. intros g0.
    apply keeps_bind; [|keeps_auto].
    destruct (GenerateAllFields g0); [|keeps_auto].
    destruct (AdditionalProperties s) as [|b|[ap|]|] eqn:Ea; keeps_auto.
    apply keeps_extraValues. apply Hgen. apply in_children_ap. exact Ea.
Qed.

Lemma keeps_generateArray (d : Z) : keeps (generateArray lib gen s d).
Proof.
  unfold generateArray. apply keeps_bind; [keeps_auto|]. intros length.
  destruct (length <? 0); [keeps_auto|].
  destruct (Items s) as [|[c|]|items|] eqn:Ei; keeps_auto.
  - apply keeps_genItems. apply Hgen. apply in_children_item. exact Ei.
  - apply keeps_genTuple. intros m Hm.
    apply in_map_iff in Hm as [o [Ho Hin]].
    destruct o as [c|]; cbn in Ho; inversion Ho; subst.
    apply Hgen. eapply in_children_tuple; eauto.
Qed.

Lemma keeps_handleOneOf (d : Z) : keeps (handleOneOf lib gen s d).
Proof.
  unfold handleOneOf. destruct (OneOf s) as [|c0 l] eqn:Eo; [keeps_auto|].
  apply keeps_bind; [eauto with keeps|]. intros i.
  apply keeps_bind_ok; [eauto with keeps|]. intros g a g' Hi.
  apply index_ok_in in Hi. apply in_map_iff in Hi as [c [<- Hc]].
  apply Hgen. apply in_children_oneOf. rewrite Eo. exact Hc.
Qed.

Lemma keeps_handleAnyOf (d : Z) : keeps (handleAnyOf lib gen s d).
Proof.
  unfold handleAnyOf. destruct (AnyOf s) as [|c0 l] eqn:Ea; [keeps_auto|].
  apply keeps_bind; [eauto with keeps|]. intros i.
  apply keeps_bind_ok; [eauto with keeps|]. intros g a g' Hi.
  apply index_ok_in in Hi. apply in_map_iff in Hi as [c [<- Hc]].
  apply Hgen. apply in_children_anyOf. rewrite Ea. exact Hc.
Qed.

Lemma keeps_handleAllOf (d : Z) : keeps (handleAllOf gen s d).
Proof.
  unfold handleAllOf. destruct (AllOf s) as [|c0 l] eqn:El; [keeps_auto|].
  apply Hgen. apply in_children_allOf. rewrite El. left. reflexivity.
Qed.

End WithGen.

Lemma keeps_generateByTypeSingle (gen : Schema -> Z -> M Value) (s : Schema) (d : Z) :
  (forall c d', In c (children s) -> keeps (gen c d')) ->
  keeps (generateByTypeSingle lib rt gen s d).
Proof.
  intros Hgen. unfold generateByTypeSingle.
  destruct (GetTypes (Type_ s)) as [|t rest]; [keeps_auto|].
  repeat match goal with
         | |- keeps (if ?b then _ else _) => destruct b
         end; keeps_auto.
  - apply keeps_generateObject. exact Hgen.
  - apply keeps_generateArray. exact Hgen.
Qed.

Lemma keeps_generateByType (gen : Schema -> Z -> M Value) (s : Schema) (d : Z) :
  (forall c d', In c (children s) -> keeps (gen c d')) ->
  keeps (generateByType lib rt gen s d).
Proof.
  intros Hgen. unfold generateByType.
  destruct (Nat.ltb 1 (List.length (GetTypes (Type_ s)))).
  - apply keeps_bind; [eauto with keeps|]. intros i.
    apply keeps_bind; [eauto with keeps|]. intros t.
    apply keeps_generateByTypeSingle. exact Hgen.
  - apply keeps_generateByTypeSingle. exact Hgen.
Qed.

(** [generate] keeps [generateAllFields] and [maxDepth]. *)
Lemma keeps_generate : forall s d, keeps (generate lib rt s d).
Proof.
  apply (schema_children_ind (fun s => forall d, keeps (generate lib rt s d))).
  intros s IH d.
  assert (Hgen : forall c d', In c (children s) -> keeps (generateWithContext lib rt false c d'))
    by (intros c d' Hc; exact (IH c Hc d')).
  destruct s. unfold generate. cbn [generateWithContext]. cbv iota.
  apply keeps_bind; [eauto with keeps|]. intros g.
  destruct (d >=? MaxDepth g); [keeps_auto|].
  destruct (Const _); [keeps_auto|].
  destruct (Enum _); [|keeps_auto].
  repeat match goal with
         | |- keeps (if ?b then _ else _) => destruct b
         | |- keeps (match Properties ?x with _ => _ end) => destruct (Properties x)
         | |- keeps (match Items ?x with _ => _ end) => destruct (Items x)
         end;
    first [ apply keeps_handleOneOf; exact Hgen
          | apply keeps_handleAnyOf; exact Hgen
          | apply keeps_handleAllOf; exact Hgen
          | apply keeps_generateByType; exact Hgen
          | apply keeps_generateObject; exact Hgen
          | apply keeps_generateArray; exact Hgen
          | keeps_auto ].
Qed.

End Invariant.

(** ** Keys of generated objects *)

Lemma map_insert_keys {A} (k' : string) (v : A) (r : list (string * A)) (k : string) :
  In k (map fst (map_insert k' v r)) <-> k = k' \/ In k (map fst r).
Proof.
  induction r as [|[k0 v0] r IH]; cbn [map_insert map fst In].
  - assert (k' = k <-> k = k') by (split; congruence). tauto.
  - destruct (String.eqb_spec k' k0) as [->|Hne]; cbn [map fst In].
    + assert (k0 = k <-> k = k0) by (split; congruence). tauto.
    + rewrite IH. tauto.
Qed.

Lemma genFields_keys (req : list string) (fields : list (string * M Value)) :
  forall result g m g',
  Forall (fun p => keeps (snd p)) fields ->
  genFields req fields result g = (Ok m, g') ->
  forall k, In k (map fst m) <->
    In k (map fst result) \/
    (In k (map fst fields) /\ (existsb (String.eqb k) req || GenerateAllFields g) = true).
Proof.
  induction fields as [|[n gf] rest IH]; intros result g m g' Hf H k.
  - cbn in H. inversion H; subst. cbn [map In]. tauto.
  - inversion Hf as [|? ? Hgf Hrest]; subst. cbn [snd] in Hgf.
    cbn [genFields] in H. unfold bind at 1, get_gen in H.
    cbn [map fst In].
    destruct (existsb (String.eqb n) req || GenerateAllFields g) eqn:Esel.
    + unfold bind, wrap_err in H.
      pose proof (Hgf g) as [Hc _].
      destruct (gf g) as [[v|e| |] g1]; try discriminate H. cbn in Hc.
      rewrite (IH _ _ _ _ Hrest H k), map_insert_keys, Hc.
      destruct (String.eqb_spec k n) as [->|Hne]; [rewrite Esel; tauto|].
      assert (n <> k) by congruence. tauto.
    + rewrite (IH _ _ _ _ Hrest H k).
      destruct (String.eqb_spec k n) as [->|Hne].
      * rewrite Esel. intuition discriminate.
      * assert (n <> k) by congruence. tauto.
Qed.

Lemma extraWords_keys (lib : Lib) (n : nat) :
  forall result g r g', extraWords lib n result g = (Ok r, g') ->
  forall k, In k (map fst result) -> In k (map fst r).
Proof.
  induction n as [|n IH]; intros result g r g' H k Hk; cbn [extraWords] in H.
  - inversion H; subst. exact Hk.
  - unfold bind, faker in H. eapply IH; [exact H|]. apply map_insert_keys. right. exact Hk.
Qed.

Lemma extraValues_keys (lib : Lib) (n : nat) (genValue : M Value) :
  forall result g r g', extraValues lib n genValue result g = (Ok r, g') ->
  forall k, In k (map fst result) -> In k (map fst r).
Proof.
  induction n as [|n IH]; intros result g r g' H k Hk; cbn [extraValues] in H.
  - inversion H; subst. exact Hk.
  - unfold bind at 1, faker in H.
    destruct (genValue _) as [[v|e| |] g1]; try discriminate H.
    + eapply IH; [exact H|]. apply map_insert_keys. right. exact Hk.
    + eapply IH; [exact H | exact Hk].
Qed.

(** ** The validator *)

Lemma oapp_nf (o1 o2 : Outcome (list ValidationError)) :
  oapp o1 o2 = if panics o1 || panics o2 then Panics
               else Returns (outcome_errors o1 ++ outcome_errors o2).
Proof. destruct o1, o2; reflexivity. Qed.

Lemma oconcat_nf (os : list (Outcome (list ValidationError))) :
  oconcat os = if existsb panics os then Panics
               else Returns (List.concat (map outcome_errors os)).
Proof.
  induction os as [|o os IH]; [reflexivity|].
  change (oconcat (o :: os)) with (oapp o (oconcat os)).
  rewrite IH, oapp_nf. destruct o; cbn; destruct (existsb panics os); reflexivity.
Qed.

Lemma compErrors_oconcat (f : Schema -> string -> Outcome (list ValidationError))
  (basePath kw : string) (l : list Schema) :
  forall i, compErrors f basePath kw i l = oconcat (compOutcomes f basePath kw i l).
Proof.
  induction l as [|c l IH]; intros i; cbn [compErrors compOutcomes]; [reflexivity|].
  rewrite IH. reflexivity.
Qed.

(** One call of [ValidateWithDetails]: it panics when one of its nested calls
    does, and otherwise returns the node's errors followed by those of the
    nested calls. *)
Lemma ValidateWithDetails_nf (ord : MapOrder) (s : Schema) (basePath : string) :
  ValidateWithDetails ord s basePath =
  if existsb panics (child_outcomes ord s basePath) then Panics
  else Returns (nodeErrors s basePath ++
                List.concat (map outcome_errors (child_outcomes ord s basePath))).
Proof.
  assert (E : ValidateWithDetails ord s basePath =
    oapp (Returns (nodeErrors s basePath))
      (oapp (oconcat (propOutcomes ord s basePath))
      (oapp (oconcat (compOutcomes (ValidateWithDetails ord) basePath "oneOf" 0 (OneOf s)))
      (oapp (oconcat (compOutcomes (ValidateWithDetails ord) basePath "anyOf" 0 (AnyOf s)))
            (oconcat (compOutcomes (ValidateWithDetails ord) basePath "allOf" 0 (AllOf s))))))).
  { rewrite <- !compErrors_oconcat. unfold propOutcomes.
    destruct s as [ty ti en co mnl mxl pa fo mi ma emi ema mo pr rq ap it mni mxi
                   oo ao lo rf dfs dfs'].
    destruct pr; reflexivity. }
  rewrite E, !oapp_nf, !oconcat_nf. unfold child_outcomes.
  rewrite !existsb_app, !map_app, !concat_app.
  repeat match goal with
         | |- context [existsb panics ?l] => destruct (existsb panics l)
         end; reflexivity.
Qed.

Lemma in_compOutcomes (f : Schema -> string -> Outcome (list ValidationError))
  (basePath kw : string) (l : list Schema) :
  forall i o, In o (compOutcomes f basePath kw i l) <->
    exists j c, nth_error l j = Some c /\ o = f c (compPath basePath kw (i + j)).
Proof.
  induction l as [|c l IH]; intros i o; cbn [compOutcomes In].
  - split; [contradiction|]. intros [j [c [H _]]]. destruct j; discriminate H.
  - rewrite IH. split.
    + intros [H | [j [c' [Hj He]]]].
      * exists 0%nat, c. rewrite Nat.add_0_r. split; [reflexivity | symmetry; exact H].
      * exists (S j), c'. rewrite <- Nat.add_succ_comm. split; [exact Hj | exact He].
    + intros [[|j] [c' [Hj He]]]; cbn in Hj.
      * inversion Hj; subst. left. rewrite Nat.add_0_r. reflexivity.
      * right. exists j, c'. rewrite Nat.add_succ_comm. split; [exact Hj | exact He].
Qed.

Lemma existsb_perm {A} (f : A -> bool) (l l' : list A) :
  Permutation l l' -> existsb f l = existsb f l'.
Proof.
  induction 1 as [|x l l' _ IH|x y l|l l' l'' _ IH1 _ IH2]; cbn [existsb].
  - reflexivity.
  - rewrite IH. reflexivity.
  - destruct (f x), (f y); reflexivity.
  - congruence.
Qed.

Lemma existsb_map_negb {A B} (h : A -> B) (f : B -> bool) (g : A -> bool) (l : list A) :
  (forall x, In x l -> f (h x) = negb (g x)) -> existsb f (map h l) = negb (forallb g l).
Proof.
  induction l as [|x l IH]; intros H; cbn [map existsb forallb]; [reflexivity|].
  rewrite (H x (or_introl eq_refl)), IH by (intros y Hy; apply H; right; exact Hy).
  destruct (g x); reflexivity.
Qed.

Lemma nil_free_eq (s : Schema) :
  nil_free s =
  match Properties s with
  | Some ps =>
      forallb (fun p => match snd p with Some c => nil_free c | None => false end) ps
  | None => true
  end &&
  forallb nil_free (OneOf s) && forallb nil_free (AnyOf s) && forallb nil_free (AllOf s).
Proof. destruct s; reflexivity. Qed.

Lemma nil_free_prop (s c : Schema) (ps : list (string * option Schema)) (k : string) :
  nil_free s = true -> Properties s = Some ps -> In (k, Some c) ps -> nil_free c = true.
Proof.
  rewrite nil_free_eq. intros H Ep Hin. rewrite Ep, !andb_true_iff in H.
  destruct H as [[[H _] _] _]. rewrite forallb_forall in H. exact (H _ Hin).
Qed.

Lemma nil_free_comp (s c : Schema) :
  nil_free s = true -> In c (OneOf s) \/ In c (AnyOf s) \/ In c (AllOf s) ->
  nil_free c = true.
Proof.
  rewrite nil_free_eq, !andb_true_iff. intros [[[_ Ho] Ha] Hl] Hc.
  rewrite forallb_forall in Ho, Ha, Hl.
  destruct Hc as [Hc | [Hc | Hc]]; [apply Ho | apply Ha | apply Hl]; exact Hc.
Qed.

Lemma existsb_panics_comp (f : Schema -> string -> Outcome (list ValidationError))
  (basePath kw : string) (l : list Schema) :
  (forall c q, In c l -> panics (f c q) = negb (nil_free c)) ->
  forall i, existsb panics (compOutcomes f basePath kw i l) = negb (forallb nil_free l).
Proof.
  induction l as [|c l IH]; intros H i; cbn [compOutcomes existsb forallb]; [reflexivity|].
  rewrite (H c _ (or_introl eq_refl)), IH by (intros c' q Hc; apply H; right; exact Hc).
  destruct (nil_free c); reflexivity.
Qed.

Lemma perm_comp (f1 f2 : Schema -> string -> Outcome (list ValidationError))
  (basePath kw : string) (l : list Schema) :
  (forall c q, In c l -> Permutation (outcome_errors (f1 c q)) (outcome_errors (f2 c q))) ->
  forall i, Permutation (List.concat (map outcome_errors (compOutcomes f1 basePath kw i l)))
                        (List.concat (map outcome_errors (compOutcomes f2 basePath kw i l))).
Proof.
  induction l as [|c l IH]; intros H i; cbn [compOutcomes map List.concat]; [reflexivity|].
  apply Permutation_app; [apply H; left; reflexivity|].
  apply IH. intros c' q Hc. apply H. right. exact Hc.
Qed.

Lemma Permutation_concat_map {A B} (f1 f2 : A -> list B) (l : list A) :
  (forall x, In x l -> Permutation (f1 x) (f2 x)) ->
  Permutation (List.concat (map f1 l)) (List.concat (map f2 l)).
Proof.
  induction l as [|x l IH]; intros H; cbn [map List.concat]; [reflexivity|].
  apply Permutation_app; [apply H; left; reflexivity|].
  apply IH. intros y Hy. apply H. right. exact Hy.
Qed.

Lemma Permutation_concat_perm {A} (l l' : list (list A)) :
  Permutation l l' -> Permutation (List.concat l) (List.concat l').
Proof.
  induction 1 as [|x l l' _ IH|x y l|l l' l'' _ IH1 _ IH2]; cbn [List.concat].
  - reflexivity.
  - apply Permutation_app_head. exact IH.
  - rewrite !app_assoc. apply Permutation_app_tail. apply Permutation_app_comm.
  - etransitivity; eassumption.
Qed.

Section Validator.

Variable ord : MapOrder.
Hypothesis Hord : forall k A (l : list (string * A)), Permutation l (ord k A l).

Lemma in_propOutcomes (s : Schema) (basePath : string) (ps : list (string * option Schema))
  (o : Outcome (list ValidationError)) :
  Properties s = Some ps ->
  In o (propOutcomes ord s basePath) <->
  exists k x, In (k, x) ps /\
    o = match x with
        | Some c => ValidateWithDetails ord c (propPath basePath k)
        | None => Panics
        end.
Proof.
  intros Ep. unfold propOutcomes. rewrite Ep, in_map_iff. split.
  - intros [[k o'] [Ho Hin]]. cbn in Ho. subst o'.
    apply (Permutation_in _ (Permutation_sym (Hord _ _ _))) in Hin.
    apply in_map_iff in Hin as [[k' x] [Hx Hin]]. cbn in Hx.
    injection Hx as Hk Ho. subst k'.
    exists k, x. split; [exact Hin | symmetry; exact Ho].
  - intros [k [x [Hin ->]]].
    exists (k, match x with
               | Some c => ValidateWithDetails ord c (propPath basePath k)
               | None => Panics
               end).
    split; [reflexivity|]. apply (Permutation_in _ (Hord _ _ _)).
    apply (in_map (fun p => (fst p, match snd p with
                                    | Some c => ValidateWithDetails ord c (propPath basePath (fst p))
                                    | None => Panics
                                    end)) ps (k, x) Hin).
Qed.

(** [ValidateWithDetails] panics exactly on a schema with a nil property. *)
Lemma ValidateWithDetails_panics (s : Schema) :
  forall basePath, panics (ValidateWithDetails ord s basePath) = negb (nil_free s).
Proof.
  induction s as [s IH] using schema_children_ind. intros basePath.
  assert (Hc : existsb panics (child_outcomes ord s basePath) = negb (nil_free s)).
  { unfold child_outcomes. rewrite !existsb_app, nil_free_eq.
    rewrite !existsb_panics_comp
      by (intros c q Hc; apply IH;
          first [ apply in_children_oneOf; exact Hc | apply in_children_anyOf; exact Hc
                | apply in_children_allOf; exact Hc ]).
    assert (Hp : existsb panics (propOutcomes ord s basePath) =
                 negb (match Properties s with
                       | Some ps => forallb (fun p => match snd p with
                                                     | Some c => nil_free c
                                                     | None => false
                                                     end) ps
                       | None => true
                       end)).
    { unfold propOutcomes. destruct (Properties s) as [ps|] eqn:Ep; [|reflexivity].
      rewrite <- (existsb_perm _ _ _ (Permutation_map snd (Hord _ _ _))), map_map.
      apply existsb_map_negb. intros [k [c|]] Hin; cbn [fst snd]; [|reflexivity].
      apply IH. exact (in_children_prop s c ps k Ep Hin). }
    rewrite Hp.
    destruct (match Properties s with Some _ => _ | None => true end),
             (forallb nil_free (OneOf s)), (forallb nil_free (AnyOf s)),
             (forallb nil_free (AllOf s)); reflexivity. }
  rewrite ValidateWithDetails_nf, Hc. destruct (nil_free s); reflexivity.
Qed.

Lemma child_outcomes_panics (s : Schema) (basePath : string) :
  existsb panics (child_outcomes ord s basePath) = negb (nil_free s).
Proof.
  pose proof (ValidateWithDetails_panics s basePath) as H.
  rewrite ValidateWithDetails_nf in H.
  destruct (existsb panics (child_outcomes ord s basePath)), (nil_free s); cbn in H |- *;
    congruence.
Qed.

Lemma ValidateWithDetails_returns (s : Schema) (basePath : string) :
  nil_free s = true ->
  ValidateWithDetails ord s basePath =
  Returns (nodeErrors s basePath ++
           List.concat (map outcome_errors (child_outcomes ord s basePath))).
Proof. intros H. rewrite ValidateWithDetails_nf, child_outcomes_panics, H. reflexivity. Qed.

Lemma ValidateWithDetails_panic (s : Schema) (basePath : string) :
  nil_free s = false -> ValidateWithDetails ord s basePath = Panics.
Proof. intros H. rewrite ValidateWithDetails_nf, child_outcomes_panics, H. reflexivity. Qed.

(** Every error returned comes from a node reached from the root. *)
Lemma ValidateWithDetails_sound (s : Schema) :
  forall basePath e, In e (outcome_errors (ValidateWithDetails ord s basePath)) ->
  exists c q, reach s basePath c q /\ In e (nodeErrors c q).
Proof.
  induction s as [s IH] using schema_children_ind. intros basePath e He.
  rewrite ValidateWithDetails_nf in He.
  destruct (existsb panics (child_outcomes ord s basePath)); [cbn in He; contradiction|].
  cbn [outcome_errors] in He. apply in_app_or in He as [He | He].
  - exists s, basePath. split; [apply reach_here | exact He].
  - apply in_concat in He as [l [Hl He]]. apply in_map_iff in Hl as [o [<- Ho]].
    unfold child_outcomes in Ho. rewrite !in_app_iff in Ho.
    destruct Ho as [Ho | [Ho | [Ho | Ho]]].
    + destruct (Properties s) as [ps|] eqn:Ep;
        [|unfold propOutcomes in Ho; rewrite Ep in Ho; contradiction].
      apply (in_propOutcomes s basePath ps o Ep) in Ho as [k [[c|] [Hin ->]]];
        [|cbn in He; contradiction].
      destruct (IH c (in_children_prop s c ps k Ep Hin) _ _ He) as [c' [q [Hr Hn]]].
      exists c', q. split; [eapply reach_prop; eauto | exact Hn].
    + apply in_compOutcomes in Ho as [j [c [Hj ->]]].
      destruct (IH c (in_children_oneOf s c (nth_error_In _ _ Hj)) _ _ He) as [c' [q [Hr Hn]]].
      exists c', q. split; [eapply reach_oneOf; eauto | exact Hn].
    + apply in_compOutcomes in Ho as [j [c [Hj ->]]].
      destruct (IH c (in_children_anyOf s c (nth_error_In _ _ Hj)) _ _ He) as [c' [q [Hr Hn]]].
      exists c', q. split; [eapply reach_anyOf; eauto | exact Hn].
    + apply in_compOutcomes in Ho as [j [c [Hj ->]]].
      destruct (IH c (in_children_allOf s c (nth_error_In _ _ Hj)) _ _ He) as [c' [q [Hr Hn]]].
      exists c', q. split; [eapply reach_allOf; eauto | exact Hn].
Qed.

(** Every violation of a node reached from the root is returned, unless the
    call panics. *)
Lemma ValidateWithDetails_complete (s : Schema) (basePath : string) (c : Schema) (q : string)
  (e : ValidationError) :
  reach s basePath c q -> In e (nodeErrors c q) -> nil_free s = true ->
  In e (outcome_errors (ValidateWithDetails ord s basePath)).
Proof.
  intros Hr Hn.
  induction Hr as [s p | s p ps k c c' q Hp Hin Hr IH | s p i c c' q Hi Hr IH
                  | s p i c c' q Hi Hr IH | s p i c c' q Hi Hr IH]; intros Hnf;
    rewrite (ValidateWithDetails_returns _ _ Hnf); cbn [outcome_errors];
    apply in_or_app; [left; exact Hn| | | |]; right; apply in_concat.
  - exists (outcome_errors (ValidateWithDetails ord c (propPath p k))).
    split; [|apply IH; [exact Hn|]; eapply nil_free_prop; eauto].
    apply in_map. unfold child_outcomes. apply in_or_app. left.
    apply (in_propOutcomes s p ps _ Hp). exists k, (Some c). split; [exact Hin | reflexivity].
  - exists (outcome_errors (ValidateWithDetails ord c (compPath p "oneOf" i))).
    split; [|apply IH; [exact Hn|]; eapply nil_free_comp; [exact Hnf | left; eapply nth_error_In; exact Hi]].
    apply in_map. unfold child_outcomes. rewrite !in_app_iff. right. left.
    apply in_compOutcomes. exists i, c. split; [exact Hi | reflexivity].
  - exists (outcome_errors (ValidateWithDetails ord c (compPath p "anyOf" i))).
    split; [|apply IH; [exact Hn|]; eapply nil_free_comp;
             [exact Hnf | right; left; eapply nth_error_In; exact Hi]].
    apply in_map. unfold child_outcomes. rewrite !in_app_iff. right. right. left.
    apply in_compOutcomes. exists i, c. split; [exact Hi | reflexivity].
  - exists (outcome_errors (ValidateWithDetails ord c (compPath p "allOf" i))).
    split; [|apply IH; [exact Hn|]; eapply nil_free_comp;
             [exact Hnf | right; right; eapply nth_error_In; exact Hi]].
    apply in_map. unfold child_outcomes. rewrite !in_app_iff. right. right. right.
    apply in_compOutcomes. exists i, c. split; [exact Hi | reflexivity].
Qed.

End Validator.

(** Two iteration orders give the same errors up to order. *)
Lemma ValidateWithDetails_perm (ord1 ord2 : MapOrder)
  (H1 : forall k A (l : list (string * A)), Permutation l (ord1 k A l))
  (H2 : forall k A (l : list (string * A)), Permutation l (ord2 k A l)) (s : Schema) :
  forall basePath, Permutation (outcome_errors (ValidateWithDetails ord1 s basePath))
                               (outcome_errors (ValidateWithDetails ord2 s basePath)).
Proof.
  induction s as [s IH] using schema_children_ind. intros basePath.
  destruct (nil_free s) eqn:Hnf.
  - rewrite (ValidateWithDetails_returns ord1 H1 s basePath Hnf),
      (ValidateWithDetails_returns ord2 H2 s basePath Hnf).
    cbn [outcome_errors]. apply Permutation_app_head.
    unfold child_outcomes. rewrite !map_app, !concat_app.
    apply Permutation_app; [|repeat apply Permutation_app].
    + unfold propOutcomes. destruct (Properties s) as [ps|] eqn:Ep; [|reflexivity].
      etransitivity;
        [apply Permutation_concat_perm, Permutation_map, Permutation_map, Permutation_sym, H1|].
      etransitivity; [|apply Permutation_concat_perm, Permutation_map, Permutation_map, H2].
      rewrite !map_map. apply Permutation_concat_map. intros [k [c|]] Hin; cbn; [|reflexivity].
      apply IH. exact (in_children_prop s c ps k Ep Hin).
    + apply perm_comp. intros c q Hc. apply IH. apply in_children_oneOf. exact Hc.
    + apply perm_comp. intros c q Hc. apply IH. apply in_children_anyOf. exact Hc.
    + apply perm_comp. intros c q Hc. apply IH. apply in_children_allOf. exact Hc.
  - rewrite (ValidateWithDetails_panic ord1 H1 s basePath Hnf),
      (ValidateWithDetails_panic ord2 H2 s basePath Hnf). reflexivity.
Qed.

Lemma reach_prefix (s0 c0 : Schema) (p0 q0 : string) :
  reach s0 p0 c0 q0 -> String.prefix p0 q0 = true.
Proof.
  assert (Hrefl : forall x a, String.prefix x (x ++ a) = true).
  { induction x as [|a x IH]; intros b; cbn; [destruct b; reflexivity|].
    destruct (ascii_dec a a) as [_|n]; [apply IH | contradiction n; reflexivity]. }
  assert (Htrans : forall a b c, String.prefix a b = true -> String.prefix b c = true ->
                                 String.prefix a c = true).
  { induction a as [|x a IH]; intros b c H1 H2; [destruct c; reflexivity|].
    destruct b as [|y b]; [discriminate H1|]. destruct c as [|z c]; [discriminate H2|].
    cbn in *. destruct (ascii_dec x y) as [->|]; [|discriminate H1].
    destruct (ascii_dec y z) as [->|]; [|discriminate H2].
    destruct (ascii_dec z z) as [_|n]; [exact (IH _ _ H1 H2) | contradiction n; reflexivity]. }
  induction 1 as [s p | s p ps k c c' q Hp Hin Hr IH | s p i c c' q Hi Hr IH
                 | s p i c c' q Hi Hr IH | s p i c c' q Hi Hr IH].
  - assert (Happ : (p ++ "")%string = p) by (clear; induction p; cbn; congruence).
    rewrite <- Happ at 2. apply Hrefl.
  - eapply Htrans; [|exact IH]. unfold propPath.
    destruct (String.eqb_spec p "") as [->|_]; [destruct k; reflexivity | apply Hrefl].
  - eapply Htrans; [apply Hrefl | exact IH].
  - eapply Htrans; [apply Hrefl | exact IH].
  - eapply Htrans; [apply Hrefl | exact IH].
Qed.

(** ** Sample runs *)

Example itoa_12 : itoa 12 = "12"%string. Proof. reflexivity. Qed.

Example nameAge_seed42 :
  fst (Generate demoLib inOrder nameAgeSchema (SetSeed 42 (NewGenerator 7)))
  = Ok (VObj [("name"%string, VStr "aaa"); ("age"%string, VInt 100)]).
Proof. vm_compute. reflexivity. Qed.

Example conflict_rejected :
  exists e, fst (Generate demoLib inOrder
    (set_Maximum (Some 10%Q) (set_Minimum (Some 100%Q) (typed "integer")))
    (NewGenerator 0)) = Err e.
Proof. eexists. vm_compute. reflexivity. Qed.

(** ** C6: empty composition keywords *)

(** C6 (code_bug). [{"oneOf": []}], [{"anyOf": []}] and [{"allOf": []}] are
    not rejected: the empty keyword is skipped by the [len(...) > 0] tests of
    [generateWithContext], so the emptiness checks of [handleOneOf],
    [handleAnyOf] and [handleAllOf] are never reached, and the call returns
    the default empty object without error. *)
Theorem empty_composition_not_rejected (lib : Lib) (rt : Runtime) (now : Z) :
  generate lib rt emptyOneOf 0 (NewGenerator now) = (Ok (VObj []), NewGenerator now) /\
  generate lib rt emptyAnyOf 0 (NewGenerator now) = (Ok (VObj []), NewGenerator now) /\
  generate lib rt emptyAllOf 0 (NewGenerator now) = (Ok (VObj []), NewGenerator now).
Proof.
  repeat split; rewrite generate_dispatch by (cbn; lia || reflexivity); reflexivity.
Qed.

(** ** C9: const and enum *)

(** C9 (amended). Below the depth limit, a schema with a (non-null) [const]
    yields exactly that value and leaves the generator state (both random
    streams) untouched; a schema without [const] and with a non-empty [enum]
    yields one of the [enum] members. *)
Theorem const_enum_fidelity (lib : Lib) (rt : Runtime) (s : Schema) (d : Z)
  (g : Generator) :
  d < MaxDepth g ->
  (forall c, Const s = Some c -> generate lib rt s d g = (Ok c, g)) /\
  (intn_in_range lib -> Const s = None -> Enum s <> [] ->
   exists v g', generate lib rt s d g = (Ok v, g') /\ In v (Enum s)).
Proof.
  intros Hd. split.
  - intros c Hc. destruct s; cbn in Hc; subst.
    unfold generate; cbn [generateWithContext].
    unfold bind, get_gen. replace (d >=? MaxDepth g) with false by lia.
    reflexivity.
  - intros Hr Hc He. destruct s as [ty ti en co]; cbn in Hc, He; subst co.
    destruct en as [|v0 en']; [congruence|].
    unfold generate; cbn [generateWithContext].
    unfold bind, get_gen. replace (d >=? MaxDepth g) with false by lia.
    cbn [Enum Const]. unfold Intn.
    set (n := Z.of_nat (List.length (v0 :: en'))).
    set (i := rand_intn lib (rsrc g) (rpos g) n).
    assert (Hi : 0 <= i < n) by (apply Hr; unfold n; cbn [List.length]; lia).
    destruct (index_in (v0 :: en') i (set_rpos g (S (rpos g))) Hi) as [a [Ha Hin]].
    exists a, (set_rpos g (S (rpos g))). split; [exact Ha | exact Hin].
Qed.

Lemma const_enum_fidelity_witness :
  0 < MaxDepth (NewGenerator 0) /\
  generate demoLib inOrder constOnly 0 (NewGenerator 0) = (Ok (VInt 1), NewGenerator 0).
Proof.
  split; [vm_compute; reflexivity|].
  apply (proj1 (const_enum_fidelity demoLib inOrder constOnly 0 (NewGenerator 0)
                  ltac:(vm_compute; reflexivity))).
  reflexivity.
Defined.

(** C9 counterexample: with both [const] and [enum], the [const] value is
    returned although it is no member of [enum]; and with [maxDepth = 0] a
    [const] schema fails with a depth error instead of yielding its value. *)
Lemma const_enum_counterexample :
  fst (generate demoLib inOrder constAndEnum 0 (NewGenerator 0)) = Ok (VInt 1) /\
  ~ In (VInt 1) (Enum constAndEnum) /\
  fst (generate demoLib inOrder constOnly 0 (SetMaxDepth 0 (NewGenerator 0)))
  = Err (EDepth 0).
Proof.
  split; [vm_compute; reflexivity|]. split.
  - cbn. intros [H|H]; [discriminate | exact H].
  - vm_compute. reflexivity.
Qed.

(** ** C10: several declared types *)

(** C10. When the schema declares several types, [generate] draws one, [t],
    and continues with [generateByType] on the copy
    [with_type s (single_type t)], whose [Type] is [t] and whose every other
    field equals that of [s]. *)
Theorem multi_type_dispatches_on_copy (lib : Lib) (rt : Runtime) (s : Schema)
  (d : Z) (g g1 : Generator) (i : Z) (t : string) :
  d < MaxDepth g -> Const s = None -> Enum s = [] ->
  OneOf s = [] -> AnyOf s = [] -> AllOf s = [] ->
  (1 < List.length (GetTypes (Type_ s)))%nat ->
  Intn lib (Z.of_nat (List.length (GetTypes (Type_ s)))) g = (Ok i, g1) ->
  0 <= i -> nth_error (GetTypes (Type_ s)) (Z.to_nat i) = Some t ->
  generate lib rt s d g =
    generateByType lib rt (generate lib rt) (with_type s (single_type t)) d g1 /\
  Type_ (with_type s (single_type t)) = single_type t /\
  agree_except_type s (with_type s (single_type t)).
Proof.
  intros Hd Hc He Ho Ha Hl Hn Hdraw Hi Ht.
  split; [|split; [reflexivity | repeat split]].
  rewrite generate_dispatch by assumption.
  rewrite Ho, Ha, Hl. cbn [List.length Nat.eqb negb].
  assert (Hne : IsEmpty (Type_ s) = false).
  { unfold GetTypes in Hn. unfold IsEmpty.
    destruct (IsArray (Type_ s)); cbn in Hn.
    - destruct (Multiple (Type_ s)); cbn in *; [lia | reflexivity].
    - destruct (String.eqb (Single (Type_ s)) ""); cbn in Hn; lia. }
  rewrite Hne. cbn [negb].
  rewrite generateByType_on_copy.
  unfold generateByType at 1.
  replace (Nat.ltb 1 (List.length (GetTypes (Type_ s)))) with true
    by (symmetry; apply Nat.ltb_lt; exact Hn).
  unfold bind at 1. rewrite Hdraw.
  unfold bind. rewrite (index_nth _ _ _ _ Hi Ht). reflexivity.
Qed.

(** ** C8: bounds of numbers and integers *)

(** C8 (amended). When the integer part of [exclusiveMaximum] of an
    integer schema lies in [[-2^52, 2^52]], [generateNumber] fails exactly
    when the effective minimum exceeds the effective maximum, with the
    bounds-conflict error on those two values; for an integer schema whose
    range collapses under rounding ([min <= max] but
    [floor(max) < ceil(min)]), with [ceil(min)] in [[-2^52, 2^52]] and no
    positive [multipleOf], it returns [ceil(min)]. *)
Theorem number_bounds_resolution (lib : Lib) (s : Schema) (isInteger : bool)
  (g : Generator) :
  (isInteger = true -> exmax_exact s) ->
  let min := spec_effective_min s isInteger in
  let max := spec_effective_max s isInteger in
  ((exists e g', generateNumber lib s isInteger g = (Err e, g')) <-> (max < min)%Q) /\
  ((max < min)%Q -> generateNumber lib s isInteger g = (Err (EBounds min max), g)) /\
  (isInteger = true -> (min <= max)%Q -> Qfloor max < Qceiling min ->
   - 2 ^ 52 <= Qceiling min <= 2 ^ 52 -> no_positive_multiple s ->
   generateNumber lib s isInteger g = (Ok (VInt (Qceiling min)), g)).
Proof.
  intros Hx min max.
  assert (Hb : forall b, generateNumber lib s isInteger g = b ->
            Qltb max min = true -> b = (Err (EBounds min max), g)).
  { intros b <- H. unfold generateNumber.
    rewrite number_min_spec, number_max_spec by exact Hx. fold min max. rewrite H. reflexivity. }
  split; [|split].
  - split.
    + intros [e [g' He]].
      destruct (Qltb max min) eqn:E; [apply Qltb_iff; exact E|].
      exfalso. refine (generateNumber_no_err lib s isInteger g _ e g' He).
      rewrite number_min_spec, number_max_spec by exact Hx. exact E.
    + intros H. apply Qltb_iff in H. rewrite (Hb _ eq_refl H). eauto.
  - intros H. apply Qltb_iff in H. exact (Hb _ eq_refl H).
  - intros Hi Hle0 Hc Hr Hm. subst isInteger.
    assert (Hfl : Qceiling min - 1 < Qfloor max + 1).
    { rewrite Zlt_Qlt. apply (Qlt_trans _ min); [apply Qceiling_lt|].
      apply (Qle_lt_trans _ max); [exact Hle0 | apply Qlt_floor]. }
    unfold generateNumber. rewrite number_min_spec, number_max_spec by exact Hx. fold min max.
    destruct (Qltb max min) eqn:E.
    + exfalso. apply Qltb_iff in E. apply (Qlt_not_le max min); assumption.
    + unfold bind, ret.
      rewrite (go_trunc_inject (Qceiling min)), (go_trunc_inject (Qfloor max)) by lia.
      replace (Qceiling min >? Qfloor max) with true by lia.
      rewrite float64_of_int_small by lia.
      destruct Hm as [Hm | [m [Hm Hle]]]; rewrite Hm; [|].
      * cbn. rewrite go_trunc_inject by lia. reflexivity.
      * replace (Qltb 0 m) with false.
        -- cbn. rewrite go_trunc_inject by lia. reflexivity.
        -- symmetry. apply not_true_iff_false. intros H. apply Qltb_iff in H.
           apply (Qlt_not_le 0 m); assumption.
Qed.

(** An integer schema whose range [0.5, 0.7] collapses under rounding. *)
Lemma number_bounds_resolution_witness :
  generateNumber demoLib (set_Maximum (Some (7 # 10)%Q)
                            (set_Minimum (Some (1 # 2)%Q) (typed "integer")))
    true (NewGenerator 0) = (Ok (VInt 1), NewGenerator 0).
Proof.
  destruct (number_bounds_resolution demoLib
              (set_Maximum (Some (7 # 10)%Q) (set_Minimum (Some (1 # 2)%Q) (typed "integer")))
              true (NewGenerator 0) ltac:(intros _ e He; discriminate He)) as [_ [_ H]].
  refine (H eq_refl _ _ _ _).
  - vm_compute. discriminate.
  - vm_compute. reflexivity.
  - vm_compute. split; discriminate.
  - left. reflexivity.
Defined.

(** C8 counterexample: with a positive [multipleOf] the collapsed integer
    range [0.5, 0.7] yields 0, not [ceil(0.5) = 1]; and with
    [minimum = exclusiveMaximum = 1e17], [math.Floor(1e17) - 1] rounds back
    to [1e17] in float64, so the call succeeds with [1e17] although the
    effective maximum [1e17 - 1] is below the minimum. *)
Lemma number_collapse_counterexample :
  fst (generateNumber demoLib collapsedMultiple true (NewGenerator 0)) = Ok (VInt 0) /\
  Qceiling (spec_effective_min collapsedMultiple true) = 1 /\
  (spec_effective_min collapsedMultiple true <= spec_effective_max collapsedMultiple true)%Q /\
  fst (generateNumber demoLib bigExclusive true (NewGenerator 0)) = Ok (VInt (10 ^ 17)) /\
  (spec_effective_max bigExclusive true < spec_effective_min bigExclusive true)%Q.
Proof.
  split; [vm_compute; reflexivity|]. split; [vm_compute; reflexivity|].
  split; [vm_compute; discriminate|]. split; vm_compute; reflexivity.
Qed.

Lemma multi_type_dispatches_on_copy_witness :
  generate demoLib inOrder multiTyped 0 (NewGenerator 0) =
  generateByType demoLib inOrder (generate demoLib inOrder)
    (with_type multiTyped (single_type "string")) 0 (set_rpos (NewGenerator 0) 1).
Proof.
  refine (proj1 (multi_type_dispatches_on_copy demoLib inOrder multiTyped 0
    (NewGenerator 0) (set_rpos (NewGenerator 0) 1) 0 "string"
    _ _ _ _ _ _ _ _ _ _)).
  - vm_compute. reflexivity.
  - reflexivity.
  - reflexivity.
  - reflexivity.
  - reflexivity.
  - reflexivity.
  - cbn. lia.
  - vm_compute. reflexivity.
  - lia.
  - vm_compute. reflexivity.
Defined.

(** ** C3: depth *)

Lemma bind_fst_err {A B} (m : M A) (f : A -> M B) (g : Generator) (e : GenError) :
  fst (m g) = Err e -> fst (bind m f g) = Err e.
Proof. unfold bind. destruct (m g) as [[a|e'| |] g']; cbn; congruence. Qed.

(** When every field fails with the depth error, the first selected field
    in iteration order makes [genFields] fail. *)
Lemma genFields_depth (req : list string) (m : Z) :
  forall (fields : list (string * M Value)) result g,
  MaxDepth g = m ->
  (forall k f, In (k, f) fields -> forall g', MaxDepth g' = m -> f g' = (Err (EDepth m), g')) ->
  (exists k f, In (k, f) fields /\ (existsb (String.eqb k) req || GenerateAllFields g) = true) ->
  exists k, In k (map fst fields) /\
    (existsb (String.eqb k) req || GenerateAllFields g) = true /\
    fst (genFields req fields result g) = Err (EField k (EDepth m)).
Proof.
  induction fields as [|[n gf] rest IH]; intros result g Hm Hf [k [f [Hin Hsel]]];
    [destruct Hin|].
  cbn [genFields]. unfold bind at 1, get_gen. cbv beta iota.
  destruct (existsb (String.eqb n) req || GenerateAllFields g) eqn:En.
  - exists n. split; [left; reflexivity|]. split; [exact En|].
    unfold bind, wrap_err. rewrite (Hf n gf (or_introl eq_refl) g Hm). reflexivity.
  - destruct Hin as [Hin | Hin].
    + injection Hin as <- <-. congruence.
    + destruct (IH result g Hm (fun k f H => Hf k f (or_intror H))
                  (ex_intro _ k (ex_intro _ f (conj Hin Hsel)))) as [k' [Hk' Hrest]].
      exists k'. split; [right; exact Hk' | exact Hrest].
Qed.

(** C3 (amended). [generate] fails with the depth error whenever
    [depth >= maxDepth]. A descent into an object property or an array
    element is made at [depth + 1]: from the level just below [maxDepth], an
    object with a required declared property fails with the depth error of
    its first generated property, and an array with at least one element and
    a schema for its first slot fails with the depth error of that element.
    A [oneOf], [anyOf] or [allOf] branch is generated at the caller's own
    depth: the call on the schema is the call on the chosen branch. *)
Theorem depth_semantics (lib : Lib) (rt : Runtime) :
  (forall s d g, MaxDepth g <= d ->
     generate lib rt s d g = (Err (EDepth (MaxDepth g)), g)) /\
  (forall s d g c rest,
     d < MaxDepth g -> Const s = None -> Enum s = [] ->
     OneOf s = [] -> AnyOf s = [] -> AllOf s = c :: rest ->
     generate lib rt s d g = generate lib rt c d g) /\
  (forall s d g i g1 c,
     d < MaxDepth g -> Const s = None -> Enum s = [] -> OneOf s <> [] ->
     Intn lib (Z.of_nat (List.length (OneOf s))) g = (Ok i, g1) ->
     0 <= i -> nth_error (OneOf s) (Z.to_nat i) = Some c ->
     generate lib rt s d g = generate lib rt c d g1) /\
  (forall s d g i g1 c,
     d < MaxDepth g -> Const s = None -> Enum s = [] ->
     OneOf s = [] -> AnyOf s <> [] ->
     Intn lib (Z.of_nat (List.length (AnyOf s))) g = (Ok i, g1) ->
     0 <= i -> nth_error (AnyOf s) (Z.to_nat i) = Some c ->
     generate lib rt s d g = generate lib rt c d g1) /\
  (forall s d g ps,
     runtime_permutes rt -> d + 1 = MaxDepth g ->
     Const s = None -> Enum s = [] -> OneOf s = [] -> AnyOf s = [] -> AllOf s = [] ->
     GetTypes (Type_ s) = ["object"%string] -> Properties s = Some ps ->
     (exists k, In k (map fst ps) /\ In k (Required s)) ->
     exists k, In k (map fst ps) /\ (In k (Required s) \/ GenerateAllFields g = true) /\
       fst (generate lib rt s d g) = Err (EField k (EDepth (MaxDepth g)))) /\
  (forall s d g c m,
     intn_in_range lib -> d + 1 = MaxDepth g ->
     Const s = None -> Enum s = [] -> OneOf s = [] -> AnyOf s = [] -> AllOf s = [] ->
     GetTypes (Type_ s) = ["array"%string] ->
     MinItems s = Some m -> 1 <= m < 2 ^ 63 -> (forall mx, MaxItems s = Some mx -> mx < 2 ^ 63) ->
     (Items s = IMap (Some c) \/ exists rest, Items s = IList (Some c :: rest)) ->
     fst (generate lib rt s d g) = Err (EItem 0 (EDepth (MaxDepth g)))).
Proof.
  split; [|split; [|split; [|split; [|split]]]].
  - intros s d g Hd. apply generate_depth_exceeded. exact Hd.
  - intros s d g c rest Hd Hc He Ho Ha Hl.
    rewrite generate_dispatch by assumption.
    rewrite Ho, Ha, Hl. cbn [List.length Nat.eqb negb].
    unfold handleAllOf. rewrite Hl. reflexivity.
  - intros s d g i g1 c Hd Hc He Ho Hdraw Hi Hn.
    rewrite generate_dispatch by assumption.
    destruct (OneOf s) as [|c0 l] eqn:Eo; [congruence|]. cbn [List.length Nat.eqb negb].
    unfold handleOneOf. rewrite Eo.
    unfold bind at 1. rewrite Hdraw.
    unfold bind. rewrite (index_nth _ _ _ _ Hi (eq_trans (nth_error_map _ _ _) (f_equal (option_map _) Hn))).
    reflexivity.
  - intros s d g i g1 c Hd Hc He Ho Ha Hdraw Hi Hn.
    rewrite generate_dispatch by assumption.
    rewrite Ho. cbn [List.length Nat.eqb negb].
    destruct (AnyOf s) as [|c0 l] eqn:Ea; [congruence|]. cbn [List.length Nat.eqb negb].
    unfold handleAnyOf. rewrite Ea.
    unfold bind at 1. rewrite Hdraw.
    unfold bind. rewrite (index_nth _ _ _ _ Hi (eq_trans (nth_error_map _ _ _) (f_equal (option_map _) Hn))).
    reflexivity.
  - intros s d g ps [Hmap _] Hd Hc He Ho Ha Hl Ht Hp [k0 [Hk0 Hreq]].
    rewrite (generate_single_type lib rt s d g "object") by (assumption || lia).
    unfold generateByTypeSingle. rewrite Ht. cbn [String.eqb Ascii.eqb Bool.eqb andb].
    unfold generateObject. rewrite Hp.
    set (fields := map (fun p => (fst p, generatePtr (generate lib rt) (snd p) (d + 1))) ps).
    set (g1 := set_ranges g (S (ranges g))).
    set (ordered := map_order rt (ranges g) (M Value) fields).
    assert (Hperm : Permutation fields ordered) by apply Hmap.
    assert (Hf : forall k f, In (k, f) ordered -> forall g', MaxDepth g' = MaxDepth g ->
                   f g' = (Err (EDepth (MaxDepth g)), g')).
    { intros k f Hin g' Hg'.
      apply (Permutation_in _ (Permutation_sym Hperm)) in Hin.
      apply in_map_iff in Hin as [[k' [c|]] [Hkf Hin]]; injection Hkf as _ <-;
        cbn [generatePtr snd].
      - rewrite generate_depth_exceeded by lia. rewrite Hg'. reflexivity.
      - unfold bind, get_gen. replace (d + 1 >=? MaxDepth g') with true by lia.
        rewrite Hg'. reflexivity. }
    assert (Hex : exists k f, In (k, f) ordered /\
                    (existsb (String.eqb k) (Required s) || GenerateAllFields g1) = true).
    { apply in_map_iff in Hk0 as [[k x] [Hkx Hin]]. cbn in Hkx. subst k0.
      exists k, (generatePtr (generate lib rt) x (d + 1)). split.
      - apply (Permutation_in _ Hperm).
        exact (in_map (fun p => (fst p, generatePtr (generate lib rt) (snd p) (d + 1))) ps
                 (k, x) Hin).
      - apply orb_true_iff. left. apply existsb_exists. exists k.
        split; [exact Hreq | apply String.eqb_refl]. }
    destruct (genFields_depth (Required s) (MaxDepth g) ordered [] g1 eq_refl Hf Hex)
      as [k [Hk [Hsel Hfail]]].
    exists k. split; [|split].
    + apply (Permutation_in _ (Permutation_sym (Permutation_map fst Hperm))) in Hk.
      unfold fields in Hk. rewrite map_map in Hk. exact Hk.
    + apply orb_true_iff in Hsel as [Hsel | Hsel]; [left | right; exact Hsel].
      apply existsb_exists in Hsel as [x [Hx Heq]].
      apply String.eqb_eq in Heq. subst x. exact Hx.
    + unfold bind at 1, range_map. cbv beta iota.
      apply bind_fst_err. exact Hfail.
  - intros s d g c m Hr Hd Hc He Ho Ha Hl Ht Hmin Hm Hmax Hi.
    rewrite (generate_single_type lib rt s d g "array") by (assumption || lia).
    unfold generateByTypeSingle. rewrite Ht. cbn [String.eqb Ascii.eqb Bool.eqb andb].
    unfold generateArray. rewrite Hmin.
    set (mx0 := match MaxItems s with Some M => M | None => 5 end).
    assert (Hmx0 : mx0 < 2 ^ 63)
      by (unfold mx0; destruct (MaxItems s) eqn:E; [apply Hmax; reflexivity | lia]).
    set (mx := if m >? mx0 then m else mx0).
    assert (Hlen : exists len g1,
      (if mx >? m then n <- Intn lib (wrap64 (mx - m + 1)) ;; ret (wrap64 (m + n))
       else ret m) g = (Ok len, g1) /\ 1 <= len /\ MaxDepth g1 = MaxDepth g).
    { destruct (Z.gtb_spec mx m) as [Hgt|Hle].
      - assert (Hmx : mx = mx0) by (unfold mx; destruct (Z.gtb_spec m mx0); lia).
        rewrite (wrap64_id (mx - m + 1)) by lia.
        unfold bind, Intn. replace (mx - m + 1 <=? 0) with false by lia.
        unfold ret. pose proof (Hr (rsrc g) (rpos g) (mx - m + 1) ltac:(lia)).
        rewrite wrap64_id by lia. do 2 eexists. split; [reflexivity|]. split; [lia | reflexivity].
      - exists m, g. split; [reflexivity | split; [lia | reflexivity]]. }
    destruct Hlen as [len [g1 [Hlen [Hl1 Hg1]]]].
    unfold bind at 1. rewrite Hlen. cbv beta iota zeta.
    replace (len <? 0) with false by lia.
    destruct (Z.to_nat len) as [|n] eqn:En; [lia|].
    destruct Hi as [Hi | [rest Hi]]; rewrite Hi.
    + cbn [genItems]. unfold bind, wrap_err. rewrite generate_depth_exceeded by lia.
      rewrite Hg1. reflexivity.
    + cbn [genTuple map option_map]. unfold bind, wrap_err.
      rewrite generate_depth_exceeded by lia. rewrite Hg1. reflexivity.
Qed.

Lemma depth_semantics_witness :
  (exists k, In k ["a"%string] /\
     (In k ["a"%string] \/ GenerateAllFields (SetMaxDepth 1 (NewGenerator 0)) = true) /\
     fst (generate demoLib inOrder
            (set_Required ["a"%string]
               (set_Properties (Some [("a"%string, Some (typed "null"))]) (typed "object")))
            0 (SetMaxDepth 1 (NewGenerator 0)))
     = Err (EField k (EDepth (MaxDepth (SetMaxDepth 1 (NewGenerator 0)))))) /\
  fst (generate demoLib inOrder
         (set_Items (IMap (Some (typed "null"))) (set_MinItems (Some 1) (typed "array")))
         0 (SetMaxDepth 1 (NewGenerator 0)))
  = Err (EItem 0 (EDepth (MaxDepth (SetMaxDepth 1 (NewGenerator 0))))).
Proof.
  destruct (depth_semantics demoLib inOrder) as [_ [_ [_ [_ [Hobj Harr]]]]].
  split.
  - refine (Hobj (set_Required ["a"%string]
                   (set_Properties (Some [("a"%string, Some (typed "null"))]) (typed "object")))
              0 (SetMaxDepth 1 (NewGenerator 0)) [("a"%string, Some (typed "null"))]
              _ _ _ _ _ _ _ _ _ _).
    + split; intros k A l; reflexivity.
    + vm_compute. reflexivity.
    + reflexivity.
    + reflexivity.
    + reflexivity.
    + reflexivity.
    + reflexivity.
    + reflexivity.
    + reflexivity.
    + exists "a"%string. split; left; reflexivity.
  - refine (Harr (set_Items (IMap (Some (typed "null"))) (set_MinItems (Some 1) (typed "array")))
              0 (SetMaxDepth 1 (NewGenerator 0)) (typed "null") 1 _ _ _ _ _ _ _ _ _ _ _ _).
    + intros seed pos n Hn. apply Z.mod_pos_bound. exact Hn.
    + vm_compute. reflexivity.
    + reflexivity.
    + reflexivity.
    + reflexivity.
    + reflexivity.
    + reflexivity.
    + reflexivity.
    + reflexivity.
    + lia.
    + intros mx Hmx. discriminate Hmx.
    + left. reflexivity.
Defined.

(** C3 counterexample: at [maxDepth = 1], [{"oneOf":[{"type":"null"}]}]
    generated at depth 0 yields [null], while its branch generated at depth
    1, as a descent by one would make it, fails with the depth error. *)
Lemma depth_composition_counterexample :
  fst (generate demoLib inOrder oneOfNull 0 (SetMaxDepth 1 (NewGenerator 0))) = Ok VNull /\
  fst (generate demoLib inOrder (typed "null") 1 (SetMaxDepth 1 (NewGenerator 0)))
  = Err (EDepth 1).
Proof. split; vm_compute; reflexivity. Qed.

(** ** C4: error propagation *)

(** C4 (code_bug). With [generateAllFields] on, an object schema whose
    [additionalProperties] is a schema that cannot be generated (here of the
    unknown type ["bogus"]) is generated without error as [{}] when the first
    draw asks for at least one extra entry: the error of every extra entry is
    dropped by the [if err == nil] test, and the entry silently omitted. *)
Theorem additional_property_error_suppressed (lib : Lib) (rt : Runtime)
  (K now : Z) :
  runtime_permutes rt -> 0 < rand_intn lib K 0 3 ->
  (forall d g, d < MaxDepth g ->
     generate lib rt (typed "bogus") d g = (Err (EUnsupportedType "bogus"), g)) /\
  exists g', Generate lib rt apBogus
               (SetGenerateAllFields true (SetSeed K (NewGenerator now)))
             = (Ok (VObj []), g').
Proof.
  intros [Hmap Hval] Hdraw. split.
  - intros d g Hd. apply generate_unsupported_type. exact Hd.
  - set (g0 := SetGenerateAllFields true (SetSeed K (NewGenerator now))).
    unfold Generate.
    replace (Validate (validate_order rt) apBogus) with (@Returns (option ValidationError) None).
    2:{ unfold Validate. cbn [ValidateWithDetails apBogus set_AdditionalProperties
          set_Properties typed Properties OneOf AnyOf AllOf emptySchema with_type].
        cbn [map].
        rewrite (Permutation_nil (Hval EmptyString _ [])). reflexivity. }
    rewrite (generate_single_type lib rt apBogus 0 g0 "object") by (reflexivity || (cbn; lia)).
    unfold generateByTypeSingle.
    assert (Ht : GetTypes (Type_ apBogus) = ["object"%string]) by reflexivity.
    rewrite Ht. cbn [String.eqb Ascii.eqb Bool.eqb andb].
    unfold generateObject.
    change (Properties apBogus) with (Some (@nil (string * option Schema))).
    change (AdditionalProperties apBogus) with (APMap (Some (typed "bogus"))).
    cbn [map]. unfold bind at 1, range_map.
    rewrite (Permutation_nil (Hmap (ranges g0) _ [])).
    cbn [genFields]. unfold bind, get_gen, ret. cbv beta.
    cbn [GenerateAllFields set_ranges g0 SetGenerateAllFields].
    unfold Intn. change (3 <=? 0) with false. cbv beta iota.
    destruct (extraValues_all_err lib (generate lib rt (typed "bogus") (0 + 1)) 10
                (Z.to_nat (rand_intn lib (rsrc (set_ranges g0 (S (ranges g0))))
                             (rpos (set_ranges g0 (S (ranges g0)))) 3)))
      with (r := @nil (string * Value))
           (g := set_rpos (set_ranges g0 (S (ranges g0)))
                   (S (rpos (set_ranges g0 (S (ranges g0))))))
      as [g' Hg'].
    + intros g Hm. eexists. apply generate_unsupported_type. lia.
    + reflexivity.
    + cbn [rsrc rpos set_ranges g0 SetGenerateAllFields SetSeed] in Hg'.
      cbn [rsrc rpos set_ranges g0 SetGenerateAllFields SetSeed].
      rewrite Hg'. eexists. reflexivity.
Qed.

Lemma additional_property_error_suppressed_witness :
  fst (Generate demoLib inOrder apBogus
         (SetGenerateAllFields true (SetSeed 1 (NewGenerator 0)))) = Ok (VObj []).
Proof.
  destruct (proj2 (additional_property_error_suppressed demoLib inOrder 1 0
                     (conj (fun k A l => Permutation_refl l) (fun k A l => Permutation_refl l))
                     ltac:(vm_compute; reflexivity)))
    as [g' Hg'].
  rewrite Hg'. reflexivity.
Defined.

(** ** C1: determinism *)

(** C1 (code_bug). Two runs of [Generate] on the same schema from the same
    freshly seeded generator differ when the runtime iterates
    [schema.Properties] in two different orders, as Go's map iteration may
    do from one run to the next: the properties draw from the random stream
    in iteration order, so with two boolean properties [a] and [b] the value
    of [a] is the first draw in one run and the second in the other. *)
Theorem property_order_breaks_determinism (lib : Lib) (K now : Z) :
  (rand_intn lib K 0 2 =? 1) <> (rand_intn lib K 1 2 =? 1) ->
  exists m1 m2 g1 g2,
    Generate lib inOrder abSchema (SetSeed K (NewGenerator now)) = (Ok (VObj m1), g1) /\
    Generate lib reversed abSchema (SetSeed K (NewGenerator now)) = (Ok (VObj m2), g2) /\
    map_lookup "a" m1 <> map_lookup "a" m2.
Proof.
  intros Hne.
  do 4 eexists. split; [|split].
  - cbn. reflexivity.
  - cbn. reflexivity.
  - cbn. intros Heq. apply Hne. congruence.
Qed.

Lemma property_order_breaks_determinism_witness :
  exists m1 m2 g1 g2,
    Generate demoLib inOrder abSchema (SetSeed 1 (NewGenerator 0)) = (Ok (VObj m1), g1) /\
    Generate demoLib reversed abSchema (SetSeed 1 (NewGenerator 0)) = (Ok (VObj m2), g2) /\
    map_lookup "a" m1 <> map_lookup "a" m2.
Proof.
  apply (property_order_breaks_determinism demoLib 1 0).
  vm_compute. intros H. discriminate H.
Defined.

(** ** C2: string lengths *)

(** C2 (amended). On the plain path (no [pattern], no [format]), when
    [maxLength] (default 20) minus [minLength] (default 0) is below
    [2^63 - 1], so that [maxLen-minLen+1] does not overflow, the string
    generated has at least [minLength] characters, and at most [maxLength]
    characters when [maxLength] is non-negative and not below [minLength];
    assuming [Intn n] draws in [[0, n)], and the faker contracts above. *)
Theorem plain_string_length_bounds (lib : Lib) (s : Schema) (g : Generator) :
  intn_in_range lib -> words_nonempty lib -> letterN_exact lib ->
  Pattern s = EmptyString -> Format s = EmptyString ->
  int_field (MinLength s) -> int_field (MaxLength s) ->
  match MaxLength s with Some m => m | None => 20 end -
    match MinLength s with Some m => m | None => 0 end < 2 ^ 63 - 1 ->
  exists str g', generateString lib s g = (Ok str, g') /\
    (forall m, MinLength s = Some m -> m <= slen str) /\
    (forall M, MaxLength s = Some M -> 0 <= M ->
       (forall m, MinLength s = Some m -> m <= M) -> slen str <= M).
Proof.
  intros Hr Hw Hl Hp Hf Hmin Hmax Hdiff.
  unfold generateString. rewrite Hp, Hf. cbn [String.eqb negb].
  set (minLen := match MinLength s with Some m => m | None => 0 end) in *.
  set (maxLen0 := match MaxLength s with Some m => m | None => 20 end) in *.
  assert (Hrange : - 2 ^ 63 <= minLen < 2 ^ 63 /\ - 2 ^ 63 <= maxLen0 < 2 ^ 63).
  { unfold minLen, maxLen0. split.
    - destruct (MinLength s) eqn:E; [apply Hmin; reflexivity | lia].
    - destruct (MaxLength s) eqn:E; [apply Hmax; reflexivity | lia]. }
  set (maxLen := if minLen >? maxLen0 then minLen else maxLen0).
  assert (HminLen : forall m, MinLength s = Some m -> m = minLen)
    by (intros m Hm; unfold minLen; rewrite Hm; reflexivity).
  assert (HmaxLen : forall M, MaxLength s = Some M -> minLen <= M -> maxLen = M).
  { intros M HM Hle. unfold maxLen, maxLen0. rewrite HM.
    replace (minLen >? M) with false by lia. reflexivity. }
  assert (Hmm : minLen <= maxLen) by (unfold maxLen; destruct (minLen >? maxLen0) eqn:E; lia).
  assert (Hm0 : forall M, MaxLength s = Some M -> 0 <= M ->
            (forall m, MinLength s = Some m -> m <= M) -> minLen <= M).
  { intros M HM H0 Hle. unfold minLen. destruct (MinLength s) eqn:Em; [apply Hle; reflexivity | exact H0]. }
  (* in both branches the length drawn lies in [minLen, maxLen] *)
  assert (Hdraw : exists L g1, minLen <= L <= maxLen /\
            (if maxLen >? minLen then
               n <- Intn lib (wrap64 (maxLen - minLen + 1)) ;; randomString lib (wrap64 (minLen + n))
             else randomString lib minLen) g = randomString lib L g1).
  { destruct (maxLen >? minLen) eqn:E.
    - assert (Hm' : maxLen = maxLen0)
        by (unfold maxLen in *; destruct (Z.gtb_spec minLen maxLen0); lia).
      rewrite (wrap64_id (maxLen - minLen + 1)) by lia.
      unfold bind at 1, Intn. replace (maxLen - minLen + 1 <=? 0) with false by lia.
      pose proof (Hr (rsrc g) (rpos g) (maxLen - minLen + 1) ltac:(lia)).
      rewrite wrap64_id by lia.
      eexists _, _. split; [|reflexivity]. lia.
    - exists minLen, g. split; [lia | reflexivity]. }
  destruct Hdraw as [L [g1 [HL Heq]]]. fold maxLen. rewrite Heq.
  destruct (randomString_length lib L g1 Hw Hl) as [r [g' [Hrs Hlen]]].
  exists r, g'. split; [exact Hrs|]. split.
  - intros m Hm. rewrite (HminLen m Hm). lia.
  - intros M HM H0 Hle.
    pose proof (Hm0 M HM H0 Hle). rewrite (HmaxLen M HM) in HL by lia. lia.
Qed.

Lemma plain_string_length_bounds_witness :
  exists str g', generateString demoLib (set_MinLength (Some 2) (typed "string"))
                   (NewGenerator 0) = (Ok str, g') /\
    (forall m, MinLength (set_MinLength (Some 2) (typed "string")) = Some m -> m <= slen str) /\
    (forall M, MaxLength (set_MinLength (Some 2) (typed "string")) = Some M -> 0 <= M ->
       (forall m, MinLength (set_MinLength (Some 2) (typed "string")) = Some m -> m <= M) ->
       slen str <= M).
Proof.
  apply (plain_string_length_bounds demoLib (set_MinLength (Some 2) (typed "string"))
           (NewGenerator 0)).
  - intros seed pos n Hn. apply Z.mod_pos_bound. exact Hn.
  - intros seed pos. vm_compute. reflexivity.
  - intros seed pos n Hn. apply letters_slen. lia.
  - reflexivity.
  - reflexivity.
  - intros z Hz. injection Hz as <-. lia.
  - intros z Hz. discriminate Hz.
  - cbn. lia.
Defined.

(** C2 counterexample: the [format] path ignores [maxLength]; a [uuid]
    string with [maxLength = 5] has 36 characters, and [Generate] accepts the
    schema. With [minLength = -2^63] and [maxLength = 0],
    [maxLen-minLen+1] wraps to [-2^63 + 1] and [rand.Intn] panics, although
    [Generate] accepts the schema. *)
Lemma string_length_counterexample :
  (exists str, fst (Generate demoLib inOrder uuidMax5 (NewGenerator 0)) = Ok (VStr str) /\
    slen str = 36 /\ MaxLength uuidMax5 = Some 5) /\
  Validate (validate_order inOrder) hugeLengthRange = Returns None /\
  fst (Generate demoLib inOrder hugeLengthRange (NewGenerator 0)) = Panic.
Proof.
  split; [eexists; split; [vm_compute; reflexivity | split; vm_compute; reflexivity]|].
  split; vm_compute; reflexivity.
Qed.

(** ** C5: required and optional properties *)

(** C5 (amended). For an object schema whose generation succeeds: with
    [generateAllFields] off, the keys of the object are exactly the declared
    properties that are named in [required] (a required name with no
    declared property is absent); with [generateAllFields] on, every declared
    property is present. *)
Theorem object_field_selection (lib : Lib) (rt : Runtime) (s : Schema) (d : Z)
  (g : Generator) (props : list (string * option Schema)) (m : list (string * Value))
  (g' : Generator) :
  runtime_permutes rt -> d < MaxDepth g -> Const s = None -> Enum s = [] ->
  OneOf s = [] -> AnyOf s = [] -> AllOf s = [] ->
  GetTypes (Type_ s) = ["object"%string] -> Properties s = Some props ->
  generate lib rt s d g = (Ok (VObj m), g') ->
  (GenerateAllFields g = false ->
   forall k, In k (map fst m) <-> In k (map fst props) /\ In k (Required s)) /\
  (GenerateAllFields g = true ->
   forall k, In k (map fst props) -> In k (map fst m)).
Proof.
  intros [Hmap Hval] Hd Hc He Ho Ha Hl Ht Hp Hgen.
  rewrite (generate_single_type lib rt s d g "object") in Hgen by (assumption || lia).
  unfold generateByTypeSingle in Hgen. rewrite Ht in Hgen.
  cbn [String.eqb Ascii.eqb Bool.eqb andb] in Hgen.
  unfold generateObject in Hgen. rewrite Hp in Hgen.
  unfold bind at 1, range_map in Hgen.
  set (fields := map_order rt (ranges g) (M Value)
                   (map (fun p => (fst p, generatePtr (generate lib rt) (snd p) (d + 1))) props)) in Hgen.
  set (g1 := set_ranges g (S (ranges g))) in Hgen.
  assert (Hkeys : forall k, In k (map fst fields) <-> In k (map fst props)).
  { intros k. unfold fields.
    assert (Hpm := Permutation_map fst (Hmap (ranges g) _
                     (map (fun p => (fst p, generatePtr (generate lib rt) (snd p) (d + 1))) props))).
    rewrite map_map in Hpm. cbn [fst] in Hpm.
    split; intros H; [apply (Permutation_in _ (Permutation_sym Hpm)) in H
                     | apply (Permutation_in _ Hpm) in H]; exact H. }
  assert (Hf : Forall (fun p => keeps (snd p)) fields).
  { apply Forall_forall. intros [k c] Hin. unfold fields in Hin.
    apply (Permutation_in _ (Permutation_sym (Hmap _ _ _))) in Hin.
    apply in_map_iff in Hin as [[k' [c0|]] [Hpq _]]; inversion Hpq; subst;
      cbn [snd fst generatePtr].
    - apply keeps_generate. exact Hmap.
    - apply keeps_bind; [apply keeps_get_gen|]. intros x.
      destruct (d + 1 >=? MaxDepth x); [apply keeps_fail | apply keeps_panic]. }
  unfold bind at 1 in Hgen.
  destruct (genFields (Required s) fields [] g1) as [[res|e| |] g2] eqn:Ef;
    try discriminate Hgen.
  pose proof (genFields_keys _ _ _ _ _ _ Hf Ef) as Hres.
  change (GenerateAllFields g1) with (GenerateAllFields g) in Hres.
  assert (Hcfg : GenerateAllFields g2 = GenerateAllFields g).
  { pose proof (keeps_genFields lib (Required s) fields [] Hf g1) as [H _].
    rewrite Ef in H. exact H. }
  unfold bind at 1, get_gen in Hgen. rewrite Hcfg in Hgen.
  split.
  - intros Hoff k. rewrite Hoff in Hgen. cbn in Hgen. inversion Hgen; subst m.
    rewrite Hres, Hkeys, Hoff, orb_false_r. cbn [map In].
    rewrite existsb_exists. split.
    + intros [[]|[Hk1 [x [Hx Heq]]]]. apply String.eqb_eq in Heq. subst x. tauto.
    + intros [Hk1 Hk2]. right. split; [exact Hk1|]. exists k. split; [exact Hk2 | apply String.eqb_refl].
  - intros Hon k Hk. rewrite Hon in Hgen.
    assert (Hin : In k (map fst res)).
    { apply Hres. right. split; [apply Hkeys; exact Hk|]. rewrite Hon, orb_true_r. reflexivity. }
    unfold bind in Hgen.
    destruct (AdditionalProperties s) as [|[]|[ap|]|]; cbn in Hgen;
      try (inversion Hgen; subst m; exact Hin).
    + destruct (extraWords lib _ res _) as [[r|e| |] g3] eqn:Ex; try discriminate Hgen.
      inversion Hgen; subst m. eapply extraWords_keys; [exact Ex | exact Hin].
    + destruct (extraValues lib _ _ res _) as [[r|e| |] g3] eqn:Ex; try discriminate Hgen.
      inversion Hgen; subst m. eapply extraValues_keys; [exact Ex | exact Hin].
Qed.

Lemma object_field_selection_witness :
  In "a"%string (map fst [("a"%string, VNull)]) <->
  In "a"%string (map fst selProps) /\ In "a"%string (Required selSchema).
Proof.
  refine (proj1 (object_field_selection demoLib inOrder selSchema 0 (NewGenerator 0)
            selProps [("a"%string, VNull)]
            (snd (generate demoLib inOrder selSchema 0 (NewGenerator 0)))
            _ _ _ _ _ _ _ _ _ _) _ "a"%string).
  - split; intros k A l; reflexivity.
  - vm_compute. reflexivity.
  - reflexivity.
  - reflexivity.
  - reflexivity.
  - reflexivity.
  - reflexivity.
  - reflexivity.
  - reflexivity.
  - vm_compute. reflexivity.
  - reflexivity.
Defined.

(** C5 counterexample: with [generateAllFields] off, the required name [c]
    has no declared property and is absent from the generated object, which
    has the single key [a]. *)
Lemma required_fields_counterexample :
  fst (Generate demoLib inOrder selSchema (NewGenerator 0)) = Ok (VObj [("a"%string, VNull)]) /\
  In "c"%string (Required selSchema).
Proof. split; [vm_compute; reflexivity | right; left; reflexivity]. Qed.

(** ** C7: detailed validation *)

(** C7 (amended). When the validation order of every [properties] map is a
    permutation of its entries: [ValidateWithDetails] panics exactly when a
    [properties] entry is nil ([null]) in the node or in a node reached
    through [properties] and [oneOf]/[anyOf]/[allOf]; otherwise it returns
    exactly the bound-pair violations of the nodes so reached (not [items],
    nor [additionalProperties]), each at the path of its node, with the
    node's own violations first; and [Validate] returns the first element of
    that list, or none, and panics when [ValidateWithDetails] does. *)
Theorem validate_collects (ord : MapOrder) (s : Schema) (basePath : string) :
  (forall k A (l : list (string * A)), Permutation l (ord k A l)) ->
  (ValidateWithDetails ord s basePath = Panics <-> nil_free s = false) /\
  (forall l, ValidateWithDetails ord s basePath = Returns l ->
     (forall e, In e l <-> exists c q, reach s basePath c q /\ In e (nodeErrors c q)) /\
     (exists rest, l = nodeErrors s basePath ++ rest)) /\
  Validate ord s =
    match ValidateWithDetails ord s "" with
    | Panics => Panics
    | Returns l => Returns (hd_error l)
    end.
Proof.
  intros Hord. split; [|split].
  - pose proof (ValidateWithDetails_panics ord Hord s basePath) as H.
    destruct (ValidateWithDetails ord s basePath), (nil_free s); cbn in H;
      split; congruence.
  - intros l Hl.
    assert (Hnf : nil_free s = true).
    { pose proof (ValidateWithDetails_panics ord Hord s basePath) as H.
      rewrite Hl in H. destruct (nil_free s); [reflexivity | discriminate H]. }
    split.
    + intros e. split.
      * intros He. apply (ValidateWithDetails_sound ord Hord s basePath e).
        rewrite Hl. exact He.
      * intros [c [q [Hr Hn]]].
        pose proof (ValidateWithDetails_complete ord Hord s basePath c q e Hr Hn Hnf) as H.
        rewrite Hl in H. exact H.
    + rewrite (ValidateWithDetails_returns ord Hord s basePath Hnf) in Hl.
      injection Hl as <-. eexists. reflexivity.
  - unfold Validate. destruct (ValidateWithDetails ord s "") as [[|e l]|]; reflexivity.
Qed.

Lemma validate_collects_witness :
  ValidateWithDetails (validate_order inOrder) nestedBad "" = Returns [verr "a" (MsgLength 2 1)] /\
  In (verr "a" (MsgLength 2 1)) [verr "a" (MsgLength 2 1)].
Proof.
  assert (E : ValidateWithDetails (validate_order inOrder) nestedBad "" =
              Returns [verr "a" (MsgLength 2 1)]) by (vm_compute; reflexivity).
  split; [exact E|].
  destruct (validate_collects (validate_order inOrder) nestedBad ""
              ltac:(intros k A l; reflexivity)) as [_ [H _]].
  apply (proj1 (H _ E) (verr "a" (MsgLength 2 1))).
  exists (set_MaxLength (Some 1) (set_MinLength (Some 2) emptySchema)), "a"%string.
  split.
  - eapply reach_prop; [reflexivity | left; reflexivity | apply reach_here].
  - vm_compute. left. reflexivity.
Defined.

(** C7 counterexample: the [items] schema is not visited, so its
    [minLength > maxLength] goes unreported; the errors of two properties
    come in the map's iteration order, not in document order; and a [null]
    property makes validation panic instead of returning the root's
    [minimum > maximum] error. *)
Lemma validate_counterexample :
  ValidateWithDetails (validate_order inOrder) itemsBad "" = Returns [] /\
  ValidateWithDetails (validate_order reversed) twoBad "" =
    Returns [verr "b" (MsgMinMax 2 1); verr "a" (MsgMinMax 2 1)] /\
  Validate (validate_order inOrder) nilPropBad = Panics /\
  nodeErrors nilPropBad "" = [verr "" (MsgMinMax 2 1)].
Proof. repeat split; vm_compute; reflexivity. Qed.

(** ** Further properties of the package *)

(** *** Helpers *)

Lemma nodeErrors_path (s : Schema) (p : string) (e : ValidationError) :
  In e (nodeErrors s p) -> e = verr p (Message e).
Proof.
  unfold nodeErrors. rewrite !in_app_iff.
  intros H; repeat destruct H as [H|H];
  repeat match goal with
         | H : In _ (match ?x with _ => _ end) |- _ => destruct x
         | H : In _ (if ?b then _ else _) |- _ => destruct b
         | H : In _ [] |- _ => destruct H
         | H : In _ [_] |- _ => destruct H as [<-|[]]
         end; reflexivity.
Qed.

(** *** [StringOrArray] *)

(** X1. Both versions of [Contains] agree; [Contains] is membership in
    [GetTypes], except that a non-array with an empty name contains the empty
    name while [GetTypes] lists no type; and [IsEmpty] holds exactly when
    [GetTypes] is empty. *)
Theorem Contains_GetTypes (s : StringOrArray) (t : string) :
  V1.Contains s t = Contains s t /\
  (Contains s t = true <->
     In t (GetTypes s) \/ (IsArray s = false /\ Single s = ""%string /\ t = ""%string)) /\
  (IsEmpty s = true <-> GetTypes s = []).
Proof.
  destruct s as [sg ml [|]]; unfold V1.Contains, Contains, GetTypes, IsEmpty; cbn.
  - split; [|split].
    + induction ml as [|x ml IH]; cbn; [reflexivity|]. rewrite IH. reflexivity.
    + rewrite existsb_exists. split.
      * intros [x [Hx E]]. apply String.eqb_eq in E. subst x. left. exact Hx.
      * intros [H | [H _]]; [|discriminate H].
        exists t. split; [exact H | apply String.eqb_refl].
    + destruct ml; cbn; split; congruence.
  - split; [reflexivity|split].
    + rewrite String.eqb_eq. destruct (String.eqb_spec sg "") as [->|Hne]; cbn.
      * split; [intros <-; right; auto | intros [[]|[_ [_ ->]]]; reflexivity].
      * split; [intros ->; left; left; reflexivity|].
        intros [[->|[]]|[_ [E _]]]; [reflexivity | contradiction].
    + destruct (String.eqb sg ""); split; congruence.
Qed.

(** [json.Marshal] leaves a valid UTF-8 string unchanged. *)
Lemma coerce_utf8_valid (s : string) :
  forall k, valid_utf8_from k s = true -> coerce_utf8_from k s = s.
Proof.
  induction s as [|b r IH]; intros k H; [reflexivity|].
  destruct k as [|k']; cbn [valid_utf8_from coerce_utf8_from] in H |- *.
  - destruct (utf8_width (String b r)) as [|w]; [discriminate H|].
    rewrite (IH w H). reflexivity.
  - rewrite (IH k' H). reflexivity.
Qed.

(** X2. Marshalling a [StringOrArray] whose strings are valid UTF-8 and
    decoding the result into a receiver restores the field the marshalled
    form records ([Single], or [Multiple] for an array) and the [IsArray]
    flag; the other field keeps the receiver's value; so the types are
    preserved.  (An array with no element is left out: as a nil slice it
    marshals to [null].) *)
Theorem StringOrArray_roundtrip (r s : StringOrArray) :
  (IsArray s = true -> Multiple s <> []) ->
  (IsArray s = false -> valid_utf8 (Single s) = true) ->
  (IsArray s = true -> forallb valid_utf8 (Multiple s) = true) ->
  UnmarshalJSON r (MarshalJSON s) =
    Some (if IsArray s
          then {| Single := Single r; Multiple := Multiple s; IsArray := true |}
          else {| Single := Single s; Multiple := Multiple r; IsArray := false |}) /\
  (forall s', UnmarshalJSON r (MarshalJSON s) = Some s' -> GetTypes s' = GetTypes s).
Proof.
  intros _ Hs Hm.
  assert (H : UnmarshalJSON r (MarshalJSON s) =
    Some (if IsArray s
          then {| Single := Single r; Multiple := Multiple s; IsArray := true |}
          else {| Single := Single s; Multiple := Multiple r; IsArray := false |})).
  { destruct s as [sg ml [|]]; unfold UnmarshalJSON, MarshalJSON; cbn in *.
    - specialize (Hm eq_refl).
      assert (Hf : forall l : list string, forallb valid_utf8 l = true ->
        fold_right (fun j acc =>
        match unmarshal_string j, acc with
        | Some s, Some r => Some (s :: r)
        | _, _ => None
        end) (Some []) (map (fun t => JString (coerce_utf8 t)) l) = Some l).
      { induction l as [|x l IH]; cbn; intros Hl; [reflexivity|].
        apply andb_prop in Hl as [Hx Hl]. rewrite (IH Hl).
        unfold coerce_utf8. rewrite (coerce_utf8_valid x 0 Hx). reflexivity. }
      rewrite (Hf ml Hm). reflexivity.
    - unfold coerce_utf8. rewrite (coerce_utf8_valid sg 0 (Hs eq_refl)). reflexivity. }
  split; [exact H|]. intros s' H'. rewrite H in H'. inversion H'; subst s'.
  destruct s as [sg ml [|]]; reflexivity.
Qed.

(** X3. The [type] keyword decodes from a JSON string (one type), from
    [null] (the empty name: no type) or from an array whose elements are all
    strings or [null] ([null] elements become the empty name); anything else
    is an error.  The field the call does not write keeps the receiver's
    value. *)
Theorem UnmarshalJSON_cases (r : StringOrArray) (data : JSON) :
  UnmarshalJSON r data =
  match data with
  | JString s => Some {| Single := s; Multiple := Multiple r; IsArray := false |}
  | JNull => Some {| Single := ""; Multiple := Multiple r; IsArray := false |}
  | JArray l =>
      if forallb string_or_null l
      then Some {| Single := Single r; Multiple := map json_str l; IsArray := true |}
      else None
  | _ => None
  end.
Proof.
  destruct data as [| | |s|l|m]; try reflexivity.
  unfold UnmarshalJSON. cbn [unmarshal_string unmarshal_strings].
  assert (Hf : fold_right (fun j acc =>
        match unmarshal_string j, acc with
        | Some s, Some r => Some (s :: r)
        | _, _ => None
        end) (Some []) l =
      if forallb string_or_null l then Some (map json_str l) else None).
  { induction l as [|j l IH]; cbn; [reflexivity|]. rewrite IH.
    destruct (forallb string_or_null l), j; reflexivity. }
  rewrite Hf. destruct (forallb string_or_null l); reflexivity.
Qed.

(** *** The validator *)

(** X4. The first version of [Validate] returns the message of the first
    check failing at the root, in the order minimum/maximum,
    exclusiveMinimum/exclusiveMaximum, minLength/maxLength, minItems/maxItems;
    whenever it reports an error on a schema with no nil property, the current
    [Validate] returns the same message at the empty path, for any iteration
    order that ranges over all entries of each [properties] map. *)
Theorem Validate_versions (ord : MapOrder) (s : Schema) :
  V1.Validate s = option_map Message (hd_error (nodeErrors s "")) /\
  ((forall k A (l : list (string * A)), Permutation l (ord k A l)) ->
   nil_free s = true ->
   forall m, V1.Validate s = Some m -> Validate ord s = Returns (Some (verr "" m))).
Proof.
  assert (H1 : V1.Validate s = option_map Message (hd_error (nodeErrors s ""))).
  { destruct s; unfold V1.Validate, nodeErrors; cbn.
    repeat match goal with
           | |- context [match ?x with Some _ => _ | None => _ end] => is_var x; destruct x
           | |- context [Qltb ?a ?b] => destruct (Qltb a b)
           | |- context [Qle_bool ?a ?b] => destruct (Qle_bool a b)
           | |- context [?a >? ?b] => destruct (a >? b)
           end; reflexivity. }
  split; [exact H1|]. intros Hord Hnf m Hm.
  unfold Validate. rewrite (ValidateWithDetails_returns ord Hord s "" Hnf).
  rewrite H1 in Hm. destruct (nodeErrors s "") as [|e l] eqn:E; [discriminate Hm|].
  injection Hm as <-.
  assert (He : e = verr "" (Message e)).
  { apply (nodeErrors_path s ""). rewrite E. left. reflexivity. }
  rewrite <- He. reflexivity.
Qed.

(** X5. When [ValidateWithDetails] returns (when each [properties] map is
    ranged over in some order of its entries), every error it returns from a
    base path carries a path that starts with that base path. *)
Theorem ValidateWithDetails_paths (ord : MapOrder) (s : Schema) (basePath : string) :
  (forall k A (l : list (string * A)), Permutation l (ord k A l)) ->
  forall l e, ValidateWithDetails ord s basePath = Returns l -> In e l ->
  String.prefix basePath (Path e) = true.
Proof.
  intros Hord l e Hv He.
  destruct (ValidateWithDetails_sound ord Hord s basePath e) as [c [q [Hr Hn]]].
  { rewrite Hv. exact He. }
  rewrite (nodeErrors_path c q e Hn). cbn [Path verr].
  exact (reach_prefix s c basePath q Hr).
Qed.

(** X6. For any two iteration orders of the [properties] maps, each a
    permutation of the entries, [ValidateWithDetails] panics under both or
    returns under both, the same errors up to order; and [Validate] accepts
    the schema under one exactly when it accepts it under the other. *)
Theorem ValidateWithDetails_order_independent (ord1 ord2 : MapOrder) (s : Schema)
  (basePath : string) :
  (forall k A (l : list (string * A)), Permutation l (ord1 k A l)) ->
  (forall k A (l : list (string * A)), Permutation l (ord2 k A l)) ->
  ((ValidateWithDetails ord1 s basePath = Panics /\
    ValidateWithDetails ord2 s basePath = Panics) \/
   exists l1 l2, ValidateWithDetails ord1 s basePath = Returns l1 /\
     ValidateWithDetails ord2 s basePath = Returns l2 /\ Permutation l1 l2) /\
  (Validate ord1 s = Returns None <-> Validate ord2 s = Returns None).
Proof.
  intros H1 H2.
  assert (HV : forall p,
    (ValidateWithDetails ord1 s p = Panics /\ ValidateWithDetails ord2 s p = Panics) \/
    exists l1 l2, ValidateWithDetails ord1 s p = Returns l1 /\
      ValidateWithDetails ord2 s p = Returns l2 /\ Permutation l1 l2).
  { intros p. destruct (nil_free s) eqn:En.
    - right. pose proof (ValidateWithDetails_perm ord1 ord2 H1 H2 s p) as HP.
      rewrite (ValidateWithDetails_returns ord1 H1 s p En),
              (ValidateWithDetails_returns ord2 H2 s p En) in HP |- *.
      do 2 eexists. split; [reflexivity|]. split; [reflexivity|]. exact HP.
    - left. split; [apply (ValidateWithDetails_panic ord1 H1) | apply (ValidateWithDetails_panic ord2 H2)];
        exact En. }
  split; [apply HV|].
  unfold Validate. destruct (HV ""%string) as [[-> ->]|[l1 [l2 [-> [-> HP]]]]];
    [split; congruence|].
  destruct l1 as [|e1 l1], l2 as [|e2 l2]; try (split; congruence).
  - apply Permutation_nil in HP. discriminate HP.
  - apply Permutation_sym, Permutation_nil in HP. discriminate HP.
Qed.

(** *** Helpers on generation *)

Lemma fillWords_length (lib : Lib) (n : nat) :
  forall g l g', fillWords lib n g = (Ok l, g') -> List.length l = n.
Proof.
  induction n as [|n IH]; intros g l g' H; cbn [fillWords] in H.
  - inversion H. reflexivity.
  - unfold bind at 1, faker in H. unfold bind, ret in H.
    destruct (fillWords lib n _) as [[r| | |] g1] eqn:E; try discriminate H.
    inversion H; subst. cbn. f_equal. exact (IH _ _ _ E).
Qed.

Lemma genItems_length (i : Z) (n : nat) (genItem : M Value) :
  forall i g l g', genItems i n genItem g = (Ok l, g') -> List.length l = n.
Proof.
  clear i. induction n as [|n IH]; intros i g l g' H; cbn [genItems] in H.
  - inversion H. reflexivity.
  - unfold bind, wrap_err, ret in H.
    destruct (genItem g) as [[v|e| |] g1]; try discriminate H.
    destruct (genItems (i + 1) n genItem g1) as [[r| | |] g2] eqn:E; try discriminate H.
    inversion H; subst. cbn. f_equal. exact (IH _ _ _ _ E).
Qed.

(** Slots of a tuple past the end of [items] are faker words; the result has
    the requested length. *)
Lemma genTuple_spec (lib : Lib) (n : nat) :
  forall i items g l g', genTuple lib i n items g = (Ok l, g') ->
  List.length l = n /\
  forall j v, nth_error l j = Some v -> (List.length items <= j)%nat -> exists w, v = VStr w.
Proof.
  induction n as [|n IH]; intros i items g l g' H; cbn [genTuple] in H.
  - inversion H; subst. split; [reflexivity|]. intros [|j] v Hj; discriminate Hj.
  - unfold bind at 1 in H.
    destruct ((match items with
               | Some genItem :: _ => wrap_err (EItem i) genItem
               | None :: _ => fail (EItemsParseAt i)
               | [] => w <- faker lib FWord ;; ret (VStr w)
               end) g) as [[v0| | |] g1] eqn:E0; try discriminate H.
    unfold bind, ret in H.
    destruct (genTuple lib (i + 1) n (tl items) g1) as [[r| | |] g2] eqn:E; try discriminate H.
    inversion H; subst l. destruct (IH _ _ _ _ _ E) as [Hlen Htail].
    split; [cbn; f_equal; exact Hlen|].
    intros [|j] v Hj Hle; cbn in Hj.
    + inversion Hj; subst v0.
      destruct items as [|[gi|] r']; [|cbn in Hle; lia | cbn in Hle; lia].
      cbn in E0. inversion E0. eauto.
    + apply (Htail j v Hj). destruct items; cbn in Hle |- *; lia.
Qed.

Lemma map_insert_length {A} (k : string) (v : A) (r : list (string * A)) :
  (List.length (map_insert k v r) <= S (List.length r))%nat.
Proof.
  induction r as [|[k' v'] r IH]; cbn; [lia|].
  destruct (String.eqb k k'); cbn; lia.
Qed.

Lemma genFields_length (req : list string) (fields : list (string * M Value)) :
  forall result g m g', genFields req fields result g = (Ok m, g') ->
  (List.length m <= List.length result + List.length fields)%nat.
Proof.
  induction fields as [|[n gf] rest IH]; intros result g m g' H; cbn [genFields] in H.
  - inversion H; subst. lia.
  - unfold bind at 1, get_gen in H. cbn [List.length].
    destruct (existsb (String.eqb n) req || GenerateAllFields g).
    + unfold bind, wrap_err in H.
      destruct (gf g) as [[v|e| |] g1]; try discriminate H.
      pose proof (IH _ _ _ _ H). pose proof (map_insert_length n v result). lia.
    + pose proof (IH _ _ _ _ H). lia.
Qed.

Lemma extraWords_length (lib : Lib) (n : nat) :
  forall result g r g', extraWords lib n result g = (Ok r, g') ->
  (List.length r <= List.length result + n)%nat.
Proof.
  induction n as [|n IH]; intros result g r g' H; cbn [extraWords] in H.
  - inversion H; subst. lia.
  - unfold bind, faker in H. pose proof (IH _ _ _ _ H).
    match type of H with extraWords _ _ (map_insert ?k ?v _) _ = _ =>
      pose proof (map_insert_length k v result) end. lia.
Qed.

Lemma extraValues_length (lib : Lib) (n : nat) (genValue : M Value) :
  forall result g r g', extraValues lib n genValue result g = (Ok r, g') ->
  (List.length r <= List.length result + n)%nat.
Proof.
  induction n as [|n IH]; intros result g r g' H; cbn [extraValues] in H.
  - inversion H; subst. lia.
  - unfold bind at 1, faker in H.
    destruct (genValue _) as [[v|e| |] g1]; try discriminate H.
    + pose proof (IH _ _ _ _ H).
      match type of H with extraValues _ _ _ (map_insert ?k ?v _) _ = _ =>
        pose proof (map_insert_length k v result) end. lia.
    + pose proof (IH _ _ _ _ H). lia.
Qed.

(** *** The entry points *)

(** X7. [GenerateWithContext] validates before it looks at the context:
    with a cancelled context, a schema on which validation panics panics, an
    invalid schema gives the validation error, a valid one the cancellation
    error; in each case the generator is untouched.  With a live context it
    behaves as [Generate]. *)
Theorem GenerateWithContext_order (lib : Lib) (rt : Runtime) (s : Schema) (g : Generator) :
  GenerateWithContext lib rt true s g =
    (match Validate (validate_order rt) s with
     | Panics => Panic
     | Returns (Some e) => Err (EInvalidSchema e)
     | Returns None => Err ECancelled
     end, g) /\
  GenerateWithContext lib rt false s g = Generate lib rt s g.
Proof.
  unfold GenerateWithContext, Generate, generate.
  destruct (Validate (validate_order rt) s) as [[e|]|]; [split; reflexivity| |split; reflexivity].
  split; [destruct s; reflexivity | reflexivity].
Qed.

(** *** Arrays *)

(** X8. When [minItems] and [maxItems] are Go [int]s, a generated array has
    between [minItems] (default 0) and the larger of [minItems] and
    [maxItems] (default 5) elements, whatever the items schemas are. *)
Theorem generateArray_length (lib : Lib) (gen : Schema -> Z -> M Value) (s : Schema)
  (d : Z) (g g' : Generator) (l : list Value) :
  intn_in_range lib -> int_field (MinItems s) -> int_field (MaxItems s) ->
  generateArray lib gen s d g = (Ok (VArr l), g') ->
  let minItems := match MinItems s with Some m => m | None => 0 end in
  let maxItems := match MaxItems s with Some m => m | None => 5 end in
  minItems <= Z.of_nat (List.length l) <= Z.max minItems maxItems.
Proof.
  intros Hr Hmin Hmax H minItems maxItems.
  unfold generateArray in H. fold minItems maxItems in H.
  assert (Hrange : - 2 ^ 63 <= minItems < 2 ^ 63 /\ - 2 ^ 63 <= maxItems < 2 ^ 63).
  { unfold minItems, maxItems. split.
    - destruct (MinItems s) eqn:E; [apply Hmin; reflexivity | lia].
    - destruct (MaxItems s) eqn:E; [apply Hmax; reflexivity | lia]. }
  set (mx := if minItems >? maxItems then minItems else maxItems) in H.
  assert (Hmx : mx = Z.max minItems maxItems)
    by (unfold mx; destruct (Z.gtb_spec minItems maxItems); lia).
  assert (Hlen : (exists len g1,
            (if mx >? minItems then
               n <- Intn lib (wrap64 (mx - minItems + 1)) ;; ret (wrap64 (minItems + n))
             else ret minItems) g = (Ok len, g1) /\ minItems <= len <= mx) \/
          (if mx >? minItems then
               n <- Intn lib (wrap64 (mx - minItems + 1)) ;; ret (wrap64 (minItems + n))
             else ret minItems) g = (Panic, g)).
  { destruct (Z.gtb_spec mx minItems).
    - unfold bind, Intn.
      destruct (Z.leb_spec (wrap64 (mx - minItems + 1)) 0) as [Hle|Hgt]; [right; reflexivity|].
      left.
      assert (Hx : mx - minItems + 1 < 2 ^ 63).
      { destruct (Z.ltb_spec (mx - minItems + 1) (2 ^ 63)) as [|Hge]; [assumption|].
        rewrite wrap64_high in Hgt by lia. lia. }
      rewrite (wrap64_id (mx - minItems + 1)) by lia.
      pose proof (Hr (rsrc g) (rpos g) (mx - minItems + 1) ltac:(lia)).
      unfold ret. rewrite wrap64_id by lia.
      do 2 eexists. split; [reflexivity | lia].
    - left. do 2 eexists. split; [reflexivity | lia]. }
  destruct Hlen as [[len [g1 [Hl Hb]]]|Hp];
    [|unfold bind at 1 in H; rewrite Hp in H; discriminate H].
  unfold bind at 1 in H. rewrite Hl in H.
  destruct (len <? 0) eqn:Eneg; [discriminate H|]. apply Z.ltb_ge in Eneg.
  assert (Hn : Z.of_nat (Z.to_nat len) = len) by lia.
  assert (List.length l = Z.to_nat len).
  { destruct (Items s) as [|[c|]|items|]; unfold bind, ret in H.
    - destruct (fillWords lib _ g1) as [[r| | |] g2] eqn:E; try discriminate H.
      inversion H; subst. exact (fillWords_length _ _ _ _ _ E).
    - destruct (genItems 0 _ _ g1) as [[r| | |] g2] eqn:E; try discriminate H.
      inversion H; subst. exact (genItems_length 0 _ _ _ _ _ _ E).
    - discriminate H.
    - destruct (genTuple lib 0 _ _ g1) as [[r| | |] g2] eqn:E; try discriminate H.
      inversion H; subst. exact (proj1 (genTuple_spec _ _ _ _ _ _ _ E)).
    - discriminate H. }
  lia.
Qed.

(** X9. A negative [minItems] with a [maxItems] (default 5) not above it
    makes [generateArray] panic: [make] is called with a negative length. *)
Theorem generateArray_negative_length_panics (lib : Lib) (gen : Schema -> Z -> M Value)
  (s : Schema) (d : Z) (g : Generator) (m : Z) :
  MinItems s = Some m -> m < 0 ->
  match MaxItems s with Some x => x | None => 5 end <= m ->
  generateArray lib gen s d g = (Panic, g).
Proof.
  intros Hmin Hneg Hmax. unfold generateArray. rewrite Hmin.
  destruct (MaxItems s) as [x|];
  [ replace (if m >? x then m else x) with m by (destruct (Z.gtb_spec m x); lia)
  | replace (if m >? 5 then m else 5) with m by (destruct (Z.gtb_spec m 5); lia) ];
  rewrite Z.gtb_ltb, Z.ltb_irrefl; unfold bind, ret;
  replace (m <? 0) with true by lia; reflexivity.
Qed.

(** X10. With tuple [items], every slot of the generated array past the end
    of the tuple holds a faker word (a string). *)
Theorem generateArray_tuple_tail (lib : Lib) (gen : Schema -> Z -> M Value) (s : Schema)
  (d : Z) (g g' : Generator) (items : list (option Schema)) (l : list Value) :
  Items s = IList items ->
  generateArray lib gen s d g = (Ok (VArr l), g') ->
  forall j v, nth_error l j = Some v -> (List.length items <= j)%nat -> exists w, v = VStr w.
Proof.
  intros Hi H j v Hj Hle. unfold generateArray in H. rewrite Hi in H. cbv zeta in H.
  unfold bind at 1 in H.
  match type of H with
  | context [match ?t with (_, _) => _ end] => destruct t as [[len| | |] g1]
  end; try discriminate H.
  destruct (len <? 0); [discriminate H|].
  unfold bind, ret in H.
  destruct (genTuple lib 0 _ _ g1) as [[r| | |] g2] eqn:E; try discriminate H.
  inversion H; subst r.
  apply (proj2 (genTuple_spec _ _ _ _ _ _ _ E) j v Hj). rewrite length_map. exact Hle.
Qed.

(** *** Objects *)

(** X11. An object schema without [properties] generates the empty object
    without drawing anything, even when [additionalProperties] is set and
    [generateAllFields] is on. *)
Theorem object_without_properties (lib : Lib) (rt : Runtime) (s : Schema) (d : Z)
  (g : Generator) :
  d < MaxDepth g -> Const s = None -> Enum s = [] ->
  OneOf s = [] -> AnyOf s = [] -> AllOf s = [] ->
  GetTypes (Type_ s) = ["object"%string] -> Properties s = None ->
  generate lib rt s d g = (Ok (VObj []), g).
Proof.
  intros Hd Hc He Ho Ha Hl Ht Hp.
  rewrite (generate_single_type lib rt s d g "object") by assumption.
  unfold generateByTypeSingle. rewrite Ht. cbn.
  unfold generateObject. rewrite Hp. reflexivity.
Qed.

(** X12. A generated object has at most two keys more than [properties] has
    entries: [additionalProperties] adds fewer than three (when each map is
    ranged over in some order of its entries). *)
Theorem generateObject_size (lib : Lib) (rt : Runtime) (gen : Schema -> Z -> M Value)
  (s : Schema) (d : Z) (g g' : Generator) (ps : list (string * option Schema))
  (r : list (string * Value)) :
  intn_in_range lib -> runtime_permutes rt -> Properties s = Some ps ->
  generateObject lib rt gen s d g = (Ok (VObj r), g') ->
  (List.length r <= List.length ps + 2)%nat.
Proof.
  intros Hr [Hmap _] Hp H. unfold generateObject in H. rewrite Hp in H.
  unfold bind at 1, range_map in H.
  set (fields := map_order rt (ranges g) _ _) in H.
  assert (Hfl : List.length fields = List.length ps).
  { unfold fields. rewrite <- (Permutation_length (Hmap _ _ _)). apply length_map. }
  unfold bind at 1 in H.
  destruct (genFields (Required s) fields [] _) as [[res| | |] g2] eqn:Ef; try discriminate H.
  pose proof (genFields_length _ _ _ _ _ _ Ef) as Hres. cbn in Hres. rewrite Hfl in Hres.
  unfold bind at 1, get_gen in H.
  assert (Hx : forall n (r' : list (string * Value)), 0 <= n < 3 ->
            (List.length r' <= List.length res + Z.to_nat n)%nat ->
            (List.length r' <= List.length ps + 2)%nat) by (intros; lia).
  destruct (GenerateAllFields g2).
  - destruct (AdditionalProperties s) as [|[|]|[a|]|]; unfold bind, ret, Intn in H;
      try (replace (3 <=? 0) with false in H by reflexivity);
      try (inversion H; subst; lia).
    + destruct (extraWords lib _ res _) as [[r'| | |] g4] eqn:Ew; try discriminate H.
      inversion H; subst r'.
      eapply (Hx _ r); [apply Hr; lia | exact (extraWords_length _ _ _ _ _ _ Ew)].
    + destruct (extraValues lib _ _ res _) as [[r'| | |] g4] eqn:Ew; try discriminate H.
      inversion H; subst r'.
      eapply (Hx _ r); [apply Hr; lia | exact (extraValues_length _ _ _ _ _ _ _ Ew)].
  - unfold ret in H. inversion H; subst. lia.
Qed.

(** *** Numbers *)

(** X13. Without a positive [multipleOf], a generated integer lies between
    [ceil(min)] and [floor(max)] of the effective bounds whenever that range
    is not empty and both ends are at most [2^52] in magnitude. *)
Theorem generateNumber_in_bounds (lib : Lib) (s : Schema) (g g' : Generator) (v : Value) :
  int63n_in_range lib -> no_positive_multiple s ->
  generateNumber lib s true g = (Ok v, g') ->
  let min := number_min s true in
  let max := number_max s true in
  - 2 ^ 52 <= Qceiling min -> Qfloor max <= 2 ^ 52 -> Qceiling min <= Qfloor max ->
  exists z, v = VInt z /\ Qceiling min <= z <= Qfloor max.
Proof.
  intros Hi Hm H min max Hlo Hhi Hle.
  assert (Hmo : forall r, match MultipleOf s with
                          | Some m => if Qltb 0%Q m then multiple_adjust r m min max else r
                          | None => r
                          end = r).
  { intros r. destruct Hm as [-> | [m [-> Hm0]]]; [reflexivity|].
    replace (Qltb 0 m) with false; [reflexivity|].
    symmetry. apply not_true_iff_false. rewrite Qltb_iff. lra. }
  unfold generateNumber in H. cbv zeta in H. fold min max in H.
  destruct (Qltb max min) eqn:Eb; [discriminate H|].
  rewrite !go_trunc_inject in H by lia.
  replace (Qceiling min >? Qfloor max) with false in H by lia.
  rewrite (wrap64_id (Qfloor max - Qceiling min + 1)) in H by lia.
  unfold bind, Int63n, ret in H.
  replace (Qfloor max - Qceiling min + 1 <=? 0) with false in H by lia.
  cbv beta iota in H.
  set (k := rand_int63n lib (rsrc g) (rpos g) (Qfloor max - Qceiling min + 1)) in H.
  assert (Hk : 0 <= k < Qfloor max - Qceiling min + 1) by (apply Hi; lia).
  rewrite (wrap64_id (Qceiling min + k)) in H by lia.
  rewrite float64_of_int_small in H by lia.
  rewrite Hmo in H. inversion H; subst v.
  rewrite go_trunc_inject by lia. eexists. split; [reflexivity | lia].
Qed.

(** *** Types *)

(** X15. When [generateByType] draws, from a list of several types, an empty
    type name (which an array element [null] decodes to), the copy it recurses
    on has no type, and generation fails with "no type specified". *)
Theorem generateByType_empty_choice (lib : Lib) (rt : Runtime)
  (gen : Schema -> Z -> M Value) (s : Schema) (d : Z) (g : Generator) :
  let types := GetTypes (Type_ s) in
  let i := rand_intn lib (rsrc g) (rpos g) (Z.of_nat (List.length types)) in
  (1 < List.length types)%nat -> 0 <= i -> nth_error types (Z.to_nat i) = Some ""%string ->
  generateByType lib rt gen s d g = (Err ENoType, set_rpos g (S (rpos g))).
Proof.
  intros types i H1 H2 H3. unfold generateByType. fold types.
  replace (Nat.ltb 1 (List.length types)) with true by (symmetry; apply Nat.ltb_lt; exact H1).
  unfold bind, Intn.
  replace (Z.of_nat (List.length types) <=? 0) with false by lia.
  cbv beta iota. fold i. unfold index.
  replace (i <? 0) with false by lia. cbn [rsrc rpos set_rpos]. rewrite H3. reflexivity.
Qed.

(** *** Strings *)

(** X16. On the plain path (no [pattern], no [format]), a [maxLength]
    (default 20) and a [minLength] (default 0) that are both at most zero give
    the empty string, with no error, when [minLength] is a Go [int] and
    [maxLen-minLen+1] does not overflow. *)
Theorem generateString_nonpositive_length (lib : Lib) (s : Schema) (g : Generator) :
  intn_in_range lib -> Pattern s = ""%string -> Format s = ""%string ->
  int_field (MinLength s) ->
  match MaxLength s with Some m => m | None => 20 end -
    match MinLength s with Some m => m | None => 0 end < 2 ^ 63 - 1 ->
  match MinLength s with Some m => m | None => 0 end <= 0 ->
  match MaxLength s with Some m => m | None => 20 end <= 0 ->
  exists g', generateString lib s g = (Ok ""%string, g').
Proof.
  intros Hr Hp Hf Hint Hdiff Hmin Hmax. unfold generateString. rewrite Hp, Hf.
  cbn [String.eqb negb].
  set (mn := match MinLength s with Some m => m | None => 0 end) in *.
  set (mx0 := match MaxLength s with Some m => m | None => 20 end) in *.
  assert (Hmn : - 2 ^ 63 <= mn).
  { unfold mn. destruct (MinLength s) eqn:E; [apply (Hint z eq_refl) | lia]. }
  assert (Hmx : (if mn >? mx0 then mn else mx0) <= 0) by (destruct (mn >? mx0); lia).
  set (mx := if mn >? mx0 then mn else mx0) in *.
  destruct (Z.gtb_spec mx mn).
  - assert (Hm' : mx = mx0) by (unfold mx in *; destruct (Z.gtb_spec mn mx0); lia).
    rewrite (wrap64_id (mx - mn + 1)) by lia.
    unfold bind, Intn. replace (mx - mn + 1 <=? 0) with false by lia.
    cbv beta iota.
    pose proof (Hr (rsrc g) (rpos g) (mx - mn + 1) ltac:(lia)).
    rewrite wrap64_id by lia. unfold randomString.
    replace (mn + rand_intn lib (rsrc g) (rpos g) (mx - mn + 1) <=? 0) with true by lia.
    eexists. reflexivity.
  - unfold randomString. replace (mn <=? 0) with true by lia. eexists. reflexivity.
Qed.

(** *** Settings *)

(** X17. Generation never changes the generator's [maxDepth] nor its
    [generateAllFields] setting (when each map is ranged over in some order of
    its entries), so successive calls on one generator share them. *)
Theorem generate_keeps_settings (lib : Lib) (rt : Runtime) (s : Schema) (d : Z)
  (g : Generator) :
  runtime_permutes rt ->
  MaxDepth (snd (generate lib rt s d g)) = MaxDepth g /\
  GenerateAllFields (snd (generate lib rt s d g)) = GenerateAllFields g.
Proof.
  intros [Hm _]. destruct (keeps_generate lib rt Hm s d g) as [H1 H2]. split; assumption.
Qed.

(** ** Witnesses of the further properties *)

Lemma StringOrArray_roundtrip_witness :
  UnmarshalJSON (single_type "") (MarshalJSON (Type_ typesWithNull)) = Some (Type_ typesWithNull).
Proof.
  exact (proj1 (StringOrArray_roundtrip (single_type "") (Type_ typesWithNull)
                  ltac:(intros _; discriminate) ltac:(intros H; discriminate H)
                  ltac:(intros _; vm_compute; reflexivity))).
Defined.

Lemma Validate_versions_witness :
  Validate (validate_order inOrder) minAboveMax = Returns (Some (verr "" (MsgMinMax 2 1))).
Proof.
  apply (proj2 (Validate_versions (validate_order inOrder) minAboveMax)
           ltac:(intros k A l; reflexivity) ltac:(vm_compute; reflexivity)).
  vm_compute. reflexivity.
Defined.

Lemma ValidateWithDetails_paths_witness :
  ValidateWithDetails (validate_order inOrder) nestedBad "root" =
    Returns [verr "root.a" (MsgLength 2 1)] /\
  String.prefix "root" (Path (verr "root.a" (MsgLength 2 1))) = true.
Proof.
  split; [vm_compute; reflexivity|].
  apply (ValidateWithDetails_paths (validate_order inOrder) nestedBad "root"
           ltac:(intros k A l; reflexivity) [verr "root.a" (MsgLength 2 1)]);
    [vm_compute; reflexivity | left; reflexivity].
Defined.

Lemma ValidateWithDetails_order_independent_witness :
  ((ValidateWithDetails (validate_order inOrder) twoBad "" = Panics /\
    ValidateWithDetails (validate_order reversed) twoBad "" = Panics) \/
   exists l1 l2, ValidateWithDetails (validate_order inOrder) twoBad "" = Returns l1 /\
     ValidateWithDetails (validate_order reversed) twoBad "" = Returns l2 /\
     Permutation l1 l2) /\
  (Validate (validate_order inOrder) twoBad = Returns None <->
   Validate (validate_order reversed) twoBad = Returns None).
Proof.
  apply (ValidateWithDetails_order_independent (validate_order inOrder)
           (validate_order reversed) twoBad "").
  - intros k A l. reflexivity.
  - intros k A l. apply Permutation_rev.
Defined.

Lemma generateArray_length_witness :
  2 <= Z.of_nat (List.length [VStr "word"; VStr "word"]) <= Z.max 2 3.
Proof.
  exact (generateArray_length demoLib (generate demoLib inOrder) arr2to3 0 (NewGenerator 0)
           (snd (generateArray demoLib (generate demoLib inOrder) arr2to3 0 (NewGenerator 0)))
           [VStr "word"; VStr "word"]
           (fun seed pos n Hn => Z.mod_pos_bound _ _ Hn)
           ltac:(intros z Hz; injection Hz as <-; lia)
           ltac:(intros z Hz; injection Hz as <-; lia)
           ltac:(vm_compute; reflexivity)).
Defined.

Lemma generateArray_negative_length_panics_witness :
  generateArray demoLib (generate demoLib inOrder) arrNegative 0 (NewGenerator 0)
  = (Panic, NewGenerator 0).
Proof.
  apply (generateArray_negative_length_panics demoLib (generate demoLib inOrder) arrNegative 0
           (NewGenerator 0) (-1)); [reflexivity | lia | cbn; lia].
Defined.

Lemma generateArray_tuple_tail_witness : exists w, VStr "word" = VStr w.
Proof.
  exact (generateArray_tuple_tail demoLib (generate demoLib inOrder) tupleNull 0 (NewGenerator 0)
           (snd (generateArray demoLib (generate demoLib inOrder) tupleNull 0 (NewGenerator 0)))
           [Some (typed "null")] [VNull; VStr "word"] eq_refl
           ltac:(vm_compute; reflexivity) 1 (VStr "word") eq_refl ltac:(cbn; lia)).
Defined.

Lemma object_without_properties_witness :
  generate demoLib inOrder apOnly 0 (SetGenerateAllFields true (NewGenerator 0))
  = (Ok (VObj []), SetGenerateAllFields true (NewGenerator 0)).
Proof.
  apply object_without_properties; [vm_compute; reflexivity | reflexivity ..].
Defined.

Lemma generateObject_size_witness :
  (List.length [("a"%string, VNull); ("word"%string, VStr "word")] <= 1 + 2)%nat.
Proof.
  exact (generateObject_size demoLib inOrder (generate demoLib inOrder) apWithProp 0
           (SetGenerateAllFields true (SetSeed 2 (NewGenerator 0)))
           (snd (generateObject demoLib inOrder (generate demoLib inOrder) apWithProp 0
                   (SetGenerateAllFields true (SetSeed 2 (NewGenerator 0)))))
           [("a"%string, Some (typed "null"))]
           [("a"%string, VNull); ("word"%string, VStr "word")]
           (fun seed pos n Hn => Z.mod_pos_bound _ _ Hn)
           (conj (fun k A l => Permutation_refl l) (fun k A l => Permutation_refl l))
           eq_refl ltac:(vm_compute; reflexivity)).
Defined.

Lemma generateNumber_in_bounds_witness :
  exists z, VInt 1 = VInt z /\
    Qceiling (number_min int1to5 true) <= z <= Qfloor (number_max int1to5 true).
Proof.
  refine (generateNumber_in_bounds demoLib int1to5 (NewGenerator 0)
            (snd (generateNumber demoLib int1to5 true (NewGenerator 0))) (VInt 1)
            (fun seed pos n Hn => Z.mod_pos_bound _ _ Hn)
            (or_introl eq_refl) ltac:(vm_compute; reflexivity) _ _ _);
    vm_compute; discriminate.
Defined.

Lemma generateByType_empty_choice_witness :
  generateByType demoLib inOrder (generate demoLib inOrder) typesWithNull 0 (SetSeed 1 (NewGenerator 0))
  = (Err ENoType, set_rpos (SetSeed 1 (NewGenerator 0)) 1).
Proof.
  apply (generateByType_empty_choice demoLib inOrder (generate demoLib inOrder) typesWithNull 0
           (SetSeed 1 (NewGenerator 0))); vm_compute; [reflexivity | discriminate | reflexivity].
Defined.

Lemma generateString_nonpositive_length_witness :
  exists g', generateString demoLib maxLength0 (NewGenerator 0) = (Ok ""%string, g').
Proof.
  apply generateString_nonpositive_length;
    [exact (fun seed pos n Hn => Z.mod_pos_bound _ _ Hn) | reflexivity | reflexivity
    | intros z Hz; discriminate Hz | cbn; lia | cbn; lia | cbn; lia].
Defined.

Lemma generate_keeps_settings_witness :
  MaxDepth (snd (generate demoLib inOrder nameAgeSchema 0 (NewGenerator 0))) = 10 /\
  GenerateAllFields (snd (generate demoLib inOrder nameAgeSchema 0 (NewGenerator 0))) = false.
Proof.
  exact (generate_keeps_settings demoLib inOrder nameAgeSchema 0 (NewGenerator 0)
           (conj (fun k A l => Permutation_refl l) (fun k A l => Permutation_refl l))).
Defined.
